(** * Laminate layup optimizer: a shallow embedding of [layup_optimizer.py]

    The Python program evaluates a composite stacking sequence with classical
    laminate theory and searches the space of half-sequences by simulated
    annealing.  Floating-point numbers are read as real numbers, integers
    (ply angles, counts) as [Z] and [nat], Python exceptions as the [Err]
    results of a small error monad, and the global [random] generator as an
    explicit state that is threaded through the search.

    Where a property is about the very bits the program returns (the shear
    couplings of a ply at 90 degrees), the ply transform is embedded a second
    time over binary64 floats, in module [Binary64]. *)

From Stdlib Require Import Reals Lra Lia ZArith List Bool Arith.
From Stdlib Require PrimFloat SpecFloat FloatOps.
Import ListNotations.

Local Open Scope R_scope.

(** ** Material and ply definitions (module constants) *)

Definition E1 : R := 89e9.
Definition E2 : R := 8e9.
Definition G12 : R := 4.5e9.
Definition nu12 : R := 0.3.
Definition nu21 : R := nu12 * E2 / E1.

Definition denom : R := 1 - nu12 * nu21.
Definition Q11 : R := E1 / denom.
Definition Q22 : R := E2 / denom.
Definition Q12 : R := nu12 * E2 / denom.
Definition Q66 : R := G12.

Definition t : R := 0.001.

Definition allowed_angles : list Z := [0; 45; -45; 90]%Z.

Definition minPercent : R := 0.1.

Definition min_full_plies : nat := 4.
Definition max_full_plies : nat := 40.
Definition min_half : nat := Nat.div min_full_plies 2.
Definition max_half : nat := Nat.div max_full_plies 2.

(** ** 3x3 matrices ([np.array] of shape (3,3)) *)

Record Mat3 : Type := mkMat3 {
  e00 : R; e01 : R; e02 : R;
  e10 : R; e11 : R; e12 : R;
  e20 : R; e21 : R; e22 : R
}.

(** [M[i, j]] for in-range indices; numpy raises outside, no caller does. *)
Definition mat_get (M : Mat3) (i j : nat) : R :=
  match i, j with
  | 0%nat, 0%nat => e00 M | 0%nat, 1%nat => e01 M | 0%nat, 2%nat => e02 M
  | 1%nat, 0%nat => e10 M | 1%nat, 1%nat => e11 M | 1%nat, 2%nat => e12 M
  | 2%nat, 0%nat => e20 M | 2%nat, 1%nat => e21 M | 2%nat, 2%nat => e22 M
  | _, _ => 0
  end.

(** [np.zeros((3,3))] *)
Definition mat_zeros : Mat3 := mkMat3 0 0 0 0 0 0 0 0 0.

(** [A + B], elementwise *)
Definition mat_add (A B : Mat3) : Mat3 :=
  mkMat3 (e00 A + e00 B) (e01 A + e01 B) (e02 A + e02 B)
         (e10 A + e10 B) (e11 A + e11 B) (e12 A + e12 B)
         (e20 A + e20 B) (e21 A + e21 B) (e22 A + e22 B).

(** [A * c], array times scalar *)
Definition mat_scale (A : Mat3) (c : R) : Mat3 :=
  mkMat3 (e00 A * c) (e01 A * c) (e02 A * c)
         (e10 A * c) (e11 A * c) (e12 A * c)
         (e20 A * c) (e21 A * c) (e22 A * c).

(** [A / c], array divided by scalar *)
Definition mat_div (A : Mat3) (c : R) : Mat3 :=
  mkMat3 (e00 A / c) (e01 A / c) (e02 A / c)
         (e10 A / c) (e11 A / c) (e12 A / c)
         (e20 A / c) (e21 A / c) (e22 A / c).

(** ** Classical laminate theory *)

(** [np.radians] *)
Definition radians (angle_deg : R) : R := angle_deg * (PI / 180).

Definition compute_Qbar (angle_deg : Z) : Mat3 :=
  let theta := radians (IZR angle_deg) in
  let m := cos theta in
  let n := sin theta in
  let m2 := m ^ 2 in
  let n2 := n ^ 2 in
  let m4 := m ^ 4 in
  let n4 := n ^ 4 in
  let m3n := m ^ 3 * n in
  let mn3 := m * n ^ 3 in
  let m2n2 := m2 * n2 in
  let Qbar11 := Q11 * m4 + 2 * (Q12 + 2 * Q66) * m2n2 + Q22 * n4 in
  let Qbar12 := (Q11 + Q22 - 4 * Q66) * m2n2 + Q12 * (m4 + n4) in
  let Qbar22 := Q11 * n4 + 2 * (Q12 + 2 * Q66) * m2n2 + Q22 * m4 in
  let Qbar16 := (Q11 - Q12 - 2 * Q66) * m3n - (Q22 - Q12 - 2 * Q66) * mn3 in
  let Qbar26 := (Q11 - Q12 - 2 * Q66) * mn3 - (Q22 - Q12 - 2 * Q66) * m3n in
  let Qbar66 := (Q11 + Q22 - 2 * Q12 - 2 * Q66) * m2n2 + Q66 * (m4 + n4) in
  mkMat3 Qbar11 Qbar12 Qbar16
         Qbar12 Qbar22 Qbar26
         Qbar16 Qbar26 Qbar66.

(** ** Python exceptions as an error monad *)

Inductive exn : Type :=
| ValueError   (* empty [randint] range, shapes that do not broadcast *)
| IndexError.  (* [random.choice] of an empty sequence, index out of range *)

Inductive result (A : Type) : Type :=
| Ok (a : A)
| Err (e : exn).

Arguments Ok {A} a.
Arguments Err {A} e.

Definition rbind {A B : Type} (c : result A) (k : A -> result B) : result B :=
  match c with
  | Ok a => k a
  | Err e => Err e
  end.

(** ** The laminate integrator *)

(** [np.linspace(start, stop, num)] with the default [endpoint=True]:
    [arange(num) * step + start], and the last entry overwritten by [stop]
    when there is more than one point. *)
Definition linspace (start stop : R) (num : nat) : list R :=
  let div := (num - 1)%nat in
  let step := (stop - start) / INR div in
  let y := map (fun i => INR i * step + start) (seq 0 num) in
  if (1 <? num)%nat then removelast y ++ [stop] else y.

Definition compute_D_matrix (full_seq : list Z) : Mat3 :=
  let N := length full_seq in
  let total_thickness := INR N * t in
  let z := linspace (- total_thickness / 2) (total_thickness / 2) (N + 1) in
  fold_left
    (fun D i =>
       let Qbar := compute_Qbar (nth i full_seq 0%Z) in
       mat_add D (mat_div (mat_scale Qbar (nth (i + 1) z 0 ^ 3 - nth i z 0 ^ 3)) 3))
    (seq 0 N) mat_zeros.

Definition laminate_deflection_metric (full_seq : list Z) : R :=
  let D := compute_D_matrix full_seq in
  let D11 := mat_get D 0 0 in
  if Rle_dec D11 0 then 1e12 else 1 / D11.

Definition ply_weight : R := 0.005.

Definition laminate_weight (full_seq : list Z) : R :=
  INR (length full_seq) * ply_weight.

(** ** Constraint penalties *)

(** numpy's default tolerances of [isclose] / [allclose] *)
Definition rtol : R := 1e-5.
Definition atol : R := 1e-8.

Definition isclose (a b : R) : bool :=
  if Rle_dec (Rabs (a - b)) (atol + rtol * Rabs b) then true else false.

(** Broadcasting of two one-dimensional arrays: equal lengths pair up, a
    length-one array is stretched, anything else raises [ValueError]. *)
Definition broadcast (a b : list R) : result (list (R * R)) :=
  if (length a =? length b)%nat then Ok (combine a b)
  else if (length a =? 1)%nat then Ok (map (fun y => (hd 0 a, y)) b)
  else if (length b =? 1)%nat then Ok (map (fun x => (x, hd 0 b)) a)
  else Err ValueError.

(** [np.allclose(a, b)] *)
Definition allclose (a b : list R) : result bool :=
  rbind (broadcast a b)
        (fun ps => Ok (forallb (fun p => isclose (fst p) (snd p)) ps)).

(** [np.sum(np.array(full_seq) == a)] *)
Definition count_angle (full_seq : list Z) (a : Z) : Z :=
  Z.of_nat (count_occ Z.eq_dec full_seq a).

(** Python's [int] of a float: truncation towards zero. *)
Definition py_int (x : R) : Z :=
  if Rle_dec 0 x then Int_part x else (- Int_part (- x))%Z.

Definition penalty (full_seq : list Z) : result R :=
  let pen := 0 in
  let N := length full_seq in
  let half := (N / 2)%nat in
  rbind (allclose (map IZR (firstn half full_seq))
                  (map IZR (rev (skipn half full_seq))))
    (fun symmetric =>
       let pen := if negb symmetric then pen + 1e6 else pen in
       let count_p45 := count_angle full_seq 45 in
       let count_m45 := count_angle full_seq (-45) in
       let pen := pen + 1e6 * IZR (Z.abs (count_p45 - count_m45)) in
       let required := py_int (INR N * minPercent) in
       let count_0 := count_angle full_seq 0 in
       let count_90 := count_angle full_seq 90 in
       let count_45_total := (count_p45 + count_m45)%Z in
       let pen := if (count_0 <? required)%Z
                  then pen + 1e6 * IZR (required - count_0) else pen in
       let pen := if (count_90 <? required)%Z
                  then pen + 1e6 * IZR (required - count_90) else pen in
       let pen := if (count_45_total <? required)%Z
                  then pen + 1e6 * IZR (required - count_45_total) else pen in
       Ok pen).

Definition laminate_objective (full_seq : list Z) : result R :=
  rbind (penalty full_seq)
        (fun p => Ok (laminate_deflection_metric full_seq
                      + laminate_weight full_seq + p)).

Definition objective (half_seq : list Z) : result R :=
  let full_seq := half_seq ++ rev half_seq in
  laminate_objective full_seq.

(** ** The random generator

    The global generator of Python's [random] module is an explicit state:
    a stream of raw integer draws, from which [randint] and [choice] cut an
    index, and a stream of the floats returned by [random.random()].  Each
    call consumes the head of the stream it reads. *)

Record RandomState : Type := mkRandom {
  draws : nat -> nat;
  unifs : nat -> R
}.

Definition next_draw (g : RandomState) : nat * RandomState :=
  (draws g 0%nat, mkRandom (fun k => draws g (S k)) (unifs g)).

Definition next_unif (g : RandomState) : R * RandomState :=
  (unifs g 0%nat, mkRandom (draws g) (fun k => unifs g (S k))).

(** Computations that read the generator and may raise. *)
Definition M (A : Type) : Type := RandomState -> result (A * RandomState).

Definition ret {A : Type} (a : A) : M A := fun g => Ok (a, g).

Definition bind {A B : Type} (c : M A) (k : A -> M B) : M B :=
  fun g => match c g with
           | Ok (a, g') => k a g'
           | Err e => Err e
           end.

Definition raise {A : Type} (e : exn) : M A := fun _ => Err e.

Definition lift {A : Type} (c : result A) : M A :=
  fun g => match c with
           | Ok a => Ok (a, g)
           | Err e => Err e
           end.

Declare Scope sa_scope.
Delimit Scope sa_scope with sa.
Notation "x <- c ;; k" := (bind c (fun x => k))
  (at level 61, c at next level, right associativity) : sa_scope.
Local Open Scope sa_scope.

(** [random.randint(a, b)]: an integer of [a..b], [ValueError] on an empty
    range. *)
Definition randint (a b : Z) : M Z :=
  fun g =>
    if (b <? a)%Z then Err ValueError
    else let (k, g') := next_draw g in
         Ok ((a + Z.of_nat k mod (b - a + 1))%Z, g').

(** [random.choice(seq)]: [IndexError] on an empty sequence. *)
Definition choice {A : Type} (l : list A) : M A :=
  fun g =>
    match l with
    | [] => Err IndexError
    | d :: _ => let (k, g') := next_draw g in
                Ok (nth (k mod length l) l d, g')
    end.

(** [random.random()] *)
Definition random : M R := fun g => Ok (next_unif g).

(** [[c for _ in range(n)]] *)
Fixpoint replicateM {A : Type} (n : nat) (c : M A) : M (list A) :=
  match n with
  | O => ret []
  | S n' => x <- c ;; xs <- replicateM n' c ;; ret (x :: xs)
  end.

(** ** List operations of the moves, for a non-negative index *)

(** [l[idx]] *)
Definition get_item (l : list Z) (idx : nat) : result Z :=
  match nth_error l idx with
  | Some a => Ok a
  | None => Err IndexError
  end.

(** [l[idx] = a] *)
Fixpoint set_item (l : list Z) (idx : nat) (a : Z) : result (list Z) :=
  match l, idx with
  | [], _ => Err IndexError
  | _ :: l', O => Ok (a :: l')
  | x :: l', S i => rbind (set_item l' i a) (fun r => Ok (x :: r))
  end.

(** [l.insert(idx, a)]: an index past the end appends. *)
Definition insert_item (l : list Z) (idx : nat) (a : Z) : list Z :=
  firstn idx l ++ a :: skipn idx l.

(** [l.pop(idx)], the list that remains *)
Definition pop_item (l : list Z) (idx : nat) : result (list Z) :=
  if (idx <? length l)%nat then Ok (firstn idx l ++ skipn (S idx) l)
  else Err IndexError.

(** ** Simulated annealing over variable-length half-sequences *)

Inductive move : Type := change | insert | delete.

Record SAState : Type := mkSA {
  current_half : list Z;
  current_obj : R;
  best_half : list Z;
  best_obj : R;
  T : R
}.

(** Lines 175-179: the moves allowed at the current half length. *)
Definition allowed_moves (half : list Z) : list move :=
  [change]
  ++ (if (length half <? max_half)%nat then [insert] else [])
  ++ (if (min_half <? length half)%nat then [delete] else []).

(** Lines 182-198: the candidate proposed by a move. *)
Definition apply_move (mv : move) (candidate_half : list Z) : M (list Z) :=
  match mv with
  | change =>
      idx <- randint 0 (Z.of_nat (length candidate_half) - 1) ;;
      old <- lift (get_item candidate_half (Z.to_nat idx)) ;;
      a <- choice (filter (fun a => negb (a =? old)%Z) allowed_angles) ;;
      lift (set_item candidate_half (Z.to_nat idx) a)
  | insert =>
      idx <- randint 0 (Z.of_nat (length candidate_half)) ;;
      a <- choice allowed_angles ;;
      ret (insert_item candidate_half (Z.to_nat idx) a)
  | delete =>
      idx <- randint 0 (Z.of_nat (length candidate_half) - 1) ;;
      lift (pop_item candidate_half (Z.to_nat idx))
  end.

(** Line 204: [delta < 0 or random.random() < np.exp(-delta / T)]; the
    float is drawn only when [delta < 0] fails. *)
Definition metropolis (delta temp : R) : M bool :=
  if Rlt_dec delta 0 then ret true
  else r <- random ;;
       ret (if Rlt_dec r (exp (- delta / temp)) then true else false).

(** Lines 205-209: the state after an accepted candidate. *)
Definition accept_candidate (s : SAState) (candidate_half : list Z)
    (candidate_obj : R) : SAState :=
  if Rlt_dec candidate_obj (best_obj s)
  then mkSA candidate_half candidate_obj candidate_half candidate_obj (T s)
  else mkSA candidate_half candidate_obj (best_half s) (best_obj s) (T s).

(** Line 212 *)
Definition cool (cooling_rate : R) (s : SAState) : SAState :=
  mkSA (current_half s) (current_obj s) (best_half s) (best_obj s)
       (T s * cooling_rate).

(** One pass through the body of the [for] loop (the progress report, which
    only prints, is left out). *)
Definition sa_iteration (cooling_rate : R) (s : SAState) : M SAState :=
  mv <- choice (allowed_moves (current_half s)) ;;
  candidate_half <- apply_move mv (current_half s) ;;
  candidate_obj <- lift (objective candidate_half) ;;
  let delta := candidate_obj - current_obj s in
  accepted <- metropolis delta (T s) ;;
  let s' := if accepted : bool
            then accept_candidate s candidate_half candidate_obj
            else s in
  ret (cool cooling_rate s').

(** Lines 166-171 *)
Definition sa_init (initial_temp : R) : M SAState :=
  current_length <- randint (Z.of_nat min_half) (Z.of_nat max_half) ;;
  current_half <- replicateM (Z.to_nat current_length) (choice allowed_angles) ;;
  current_obj <- lift (objective current_half) ;;
  ret (mkSA current_half current_obj current_half current_obj initial_temp).

(** [for it in range(n_iterations)] *)
Fixpoint sa_loop (n_iterations : nat) (cooling_rate : R) (s : SAState)
    : M SAState :=
  match n_iterations with
  | O => ret s
  | S n' => s' <- sa_iteration cooling_rate s ;; sa_loop n' cooling_rate s'
  end.

Definition simulated_annealing (n_iterations : nat)
    (initial_temp cooling_rate : R) : M (list Z * R) :=
  s0 <- sa_init initial_temp ;;
  s <- sa_loop n_iterations cooling_rate s0 ;;
  let best_full_seq := best_half s ++ rev (best_half s) in
  ret (best_full_seq, best_obj s).

(** The search state once the first [k] iterations have run. *)
Definition sa_after (k : nat) (initial_temp cooling_rate : R) : M SAState :=
  s0 <- sa_init initial_temp ;; sa_loop k cooling_rate s0.

(** ** The ply transform over binary64

    The same constants and the same function as above, with Python's floats
    as IEEE binary64 numbers and every operation rounded as the machine
    rounds it.  The cosine and the sine of the C library are not part of the
    program: [compute_Qbar] takes them as parameters. *)

Module Binary64.
Import PrimFloat SpecFloat FloatOps.
Local Set Warnings "-inexact-float".
Local Open Scope float_scope.

(** An integer as a float, rounded to nearest. *)
Definition of_Z (z : Z) : float :=
  SF2Prim (binary_normalize prec emax z 0 false).

(** [x ** k] for a positive integer [k]: the exact power, rounded once to
    nearest (C's [pow], taken as correctly rounded). *)
Definition pow (x : float) (k : positive) : float :=
  match Prim2SF x with
  | S754_finite s m e =>
      SF2Prim (binary_round prec emax (andb s (Z.odd (Zpos k)))
                            (m ^ k)%positive (e * Zpos k)%Z)
  | S754_zero s => if andb s (Z.odd (Zpos k)) then neg_zero else zero
  | S754_infinity s => if andb s (Z.odd (Zpos k)) then neg_infinity else infinity
  | S754_nan => nan
  end.

Definition E1 : float := 89e9.
Definition E2 : float := 8e9.
Definition G12 : float := 4.5e9.
Definition nu12 : float := 0.3.
Definition nu21 : float := nu12 * E2 / E1.

Definition denom : float := 1 - nu12 * nu21.
Definition Q11 : float := E1 / denom.
Definition Q22 : float := E2 / denom.
Definition Q12 : float := nu12 * E2 / denom.
Definition Q66 : float := G12.

(** numpy's constant pi, and [np.radians]: [x * (pi / 180)] *)
Definition NPY_PI : float := 0x1.921fb54442d18p+1.

Definition radians (angle_deg : float) : float := angle_deg * (NPY_PI / 180).

Record Mat3 : Type := mkMat3 {
  e00 : float; e01 : float; e02 : float;
  e10 : float; e11 : float; e12 : float;
  e20 : float; e21 : float; e22 : float
}.

Definition mat_get (M : Mat3) (i j : nat) : float :=
  match i, j with
  | 0%nat, 0%nat => e00 M | 0%nat, 1%nat => e01 M | 0%nat, 2%nat => e02 M
  | 1%nat, 0%nat => e10 M | 1%nat, 1%nat => e11 M | 1%nat, 2%nat => e12 M
  | 2%nat, 0%nat => e20 M | 2%nat, 1%nat => e21 M | 2%nat, 2%nat => e22 M
  | _, _ => nan
  end.

Section Libm.

Variables np_cos np_sin : float -> float.

Definition compute_Qbar (angle_deg : Z) : Mat3 :=
  let theta := radians (of_Z angle_deg) in
  let m := np_cos theta in
  let n := np_sin theta in
  let m2 := pow m 2 in
  let n2 := pow n 2 in
  let m4 := pow m 4 in
  let n4 := pow n 4 in
  let m3n := pow m 3 * n in
  let mn3 := m * pow n 3 in
  let m2n2 := m2 * n2 in
  let Qbar11 := Q11 * m4 + 2 * (Q12 + 2 * Q66) * m2n2 + Q22 * n4 in
  let Qbar12 := (Q11 + Q22 - 4 * Q66) * m2n2 + Q12 * (m4 + n4) in
  let Qbar22 := Q11 * n4 + 2 * (Q12 + 2 * Q66) * m2n2 + Q22 * m4 in
  let Qbar16 := (Q11 - Q12 - 2 * Q66) * m3n - (Q22 - Q12 - 2 * Q66) * mn3 in
  let Qbar26 := (Q11 - Q12 - 2 * Q66) * mn3 - (Q22 - Q12 - 2 * Q66) * m3n in
  let Qbar66 := (Q11 + Q22 - 2 * Q12 - 2 * Q66) * m2n2 + Q66 * (m4 + n4) in
  mkMat3 Qbar11 Qbar12 Qbar16
         Qbar12 Qbar22 Qbar26
         Qbar16 Qbar26 Qbar66.

End Libm.

(** The binary64 values of the C library's cosine and sine at the radians
    of the allowed angles 0, 45, -45 and 90; not a number elsewhere. *)
Definition libm_cos (x : float) : float :=
  if abs x =? 0 then 1
  else if abs x =? 0x1.921fb54442d18p-1 then 0x1.6a09e667f3bcdp-1
  else if abs x =? 0x1.921fb54442d18p+0 then 0x1.1a62633145c07p-54
  else nan.

Definition libm_sin (x : float) : float :=
  if x =? 0 then x
  else if x =? 0x1.921fb54442d18p-1 then 0x1.6a09e667f3bccp-1
  else if x =? -0x1.921fb54442d18p-1 then -0x1.6a09e667f3bccp-1
  else if x =? 0x1.921fb54442d18p+0 then 1
  else nan.

End Binary64.

(** ** Reference definitions, following the specification's words *)

(** The N+1 ply-boundary coordinates, evenly spaced by the ply thickness
    from -N*t/2 to +N*t/2. *)
Definition ply_boundaries (N : nat) : list R :=
  map (fun i => - (INR N * t) / 2 + INR i * t) (seq 0 (N + 1)).

(** The sum of a list of matrices. *)
Definition mat_sum (l : list Mat3) : Mat3 := fold_right mat_add mat_zeros l.

(** The required number of plies of an orientation class:
    floor (N * minPercent). *)
Definition required_plies (N : nat) : Z := Int_part (INR N * minPercent).

(** The first half is close, entry by entry, to the reversed second half. *)
Definition mirrored (full_seq : list Z) : Prop :=
  let half := (length full_seq / 2)%nat in
  Forall2 (fun a b => isclose (IZR a) (IZR b) = true)
          (firstn half full_seq) (rev (skipn half full_seq)).

(** The same comparison as a boolean. *)
Fixpoint all_close (a b : list Z) : bool :=
  match a, b with
  | [], [] => true
  | x :: a', y :: b' => isclose (IZR x) (IZR y) && all_close a' b'
  | _, _ => false
  end.

Definition mirroredb (full_seq : list Z) : bool :=
  let half := (length full_seq / 2)%nat in
  all_close (firstn half full_seq) (rev (skipn half full_seq)).

(** As many +45 plies as -45 plies. *)
Definition balanced (full_seq : list Z) : Prop :=
  count_angle full_seq 45 = count_angle full_seq (-45).

(** Each of the classes 0, 90 and +/-45 has the required number of plies. *)
Definition covered (full_seq : list Z) : Prop :=
  let required := required_plies (length full_seq) in
  (required <= count_angle full_seq 0)%Z /\
  (required <= count_angle full_seq 90)%Z /\
  (required <= count_angle full_seq 45 + count_angle full_seq (-45))%Z.

(** Magnitudes of the violations: the imbalance and the three shortfalls. *)
Definition imbalance (full_seq : list Z) : Z :=
  Z.abs (count_angle full_seq 45 - count_angle full_seq (-45)).

Definition shortfall (required count : Z) : Z := Z.max 0 (required - count).

Definition coverage_shortfall (full_seq : list Z) : Z :=
  let required := required_plies (length full_seq) in
  (shortfall required (count_angle full_seq 0)
   + shortfall required (count_angle full_seq 90)
   + shortfall required (count_angle full_seq 45 + count_angle full_seq (-45)))%Z.

(** A matrix equal to its transpose. *)
Definition mat_symmetric (M : Mat3) : Prop :=
  e01 M = e10 M /\ e02 M = e20 M /\ e12 M = e21 M.

(** A search state whose two half-sequences are within the length bounds
    and over the allowed angles, and whose two stored objectives are those of
    the half-sequences they are stored with. *)
Definition well_formed (s : SAState) : Prop :=
  (min_half <= length (current_half s) <= max_half)%nat /\
  (min_half <= length (best_half s) <= max_half)%nat /\
  Forall (fun a => In a allowed_angles) (current_half s) /\
  Forall (fun a => In a allowed_angles) (best_half s) /\
  objective (current_half s) = Ok (current_obj s) /\
  objective (best_half s) = Ok (best_obj s).

(** A generator whose every draw is zero, and a search state, to run the
    definitions on. *)
Definition zero_generator : RandomState :=
  mkRandom (fun _ => 0%nat) (fun _ => 0).

Definition sample_state : SAState := mkSA [0; 0]%Z 0 [0; 0]%Z 0 1.

(** The total violation: one for a laminate that is not mirrored, plus the
    imbalance, plus the shortfalls. *)
Definition asymmetry (full_seq : list Z) : Z :=
  if mirroredb full_seq then 0%Z else 1%Z.

Definition violation (full_seq : list Z) : Z :=
  (asymmetry full_seq + imbalance full_seq + coverage_shortfall full_seq)%Z.

(** * Properties *)

(** ** Ply transform *)

Lemma radians_0 : radians (IZR 0) = 0.
Proof. unfold radians. lra. Qed.

Lemma E1_pos : 0 < E1.
Proof. unfold E1. lra. Qed.

Lemma denom_pos : 0 < denom.
Proof. unfold denom, nu21, nu12, E2, E1. lra. Qed.

(** ** Ply transform over binary64: the shear couplings at 0 and 90 degrees *)

Module Binary64Facts.
Import PrimFloat Binary64.
Local Set Warnings "-inexact-float".
Local Open Scope float_scope.

Lemma radians_of_0 : radians (of_Z 0) = 0.
Proof. vm_compute. reflexivity. Qed.

Lemma radians_of_90 : radians (of_Z 90) = 0x1.921fb54442d18p+0.
Proof. vm_compute. reflexivity. Qed.

(** C9, amended: with the cosine 1 and the sine 0 that the C library
    returns at 0, the shear couplings Qbar16 = Qbar[0,2] and
    Qbar26 = Qbar[1,2] of [compute_Qbar 0] are exactly zero.  Those of
    [compute_Qbar 90] are not: the cosine returned at the radians of 90 is
    6.123233995736766e-17, not 0, and Qbar16 is 2.053932998207489e-07 and
    Qbar26 is 4.7948778686507451e-06.  Both are positive and below 1e-5,
    less than 1e-16 times the stiffness Q11: zero within floating tolerance
    only. *)
Theorem compute_Qbar_shear_coupling (np_cos np_sin : float -> float) :
  np_cos (radians (of_Z 0)) = 1 ->
  np_sin (radians (of_Z 0)) = 0 ->
  np_cos (radians (of_Z 90)) = 0x1.1a62633145c07p-54 ->
  np_sin (radians (of_Z 90)) = 1 ->
  let Qbar_0 := compute_Qbar np_cos np_sin 0 in
  let Qbar_90 := compute_Qbar np_cos np_sin 90 in
  (mat_get Qbar_0 0 2 = 0 /\ mat_get Qbar_0 1 2 = 0) /\
  (mat_get Qbar_90 0 2 = 0x1.b91429244c064p-23 /\
   mat_get Qbar_90 1 2 = 0x1.41c75fe1a2b8ep-18) /\
  ((0 <? mat_get Qbar_90 0 2) = true /\ (mat_get Qbar_90 0 2 <? 1e-5) = true /\
   (0 <? mat_get Qbar_90 1 2) = true /\ (mat_get Qbar_90 1 2 <? 1e-5) = true) /\
  (mat_get Qbar_90 1 2 <? Q11 * 1e-16) = true.
Proof.
  intros C0 S0 C90 S90.
  cbv beta zeta delta [compute_Qbar mat_get e02 e12].
  rewrite C0, S0, C90, S90.
  vm_compute. repeat split; reflexivity.
Qed.

Lemma compute_Qbar_shear_coupling_witness :
  mat_get (compute_Qbar libm_cos libm_sin 0) 0 2 = 0 /\
  mat_get (compute_Qbar libm_cos libm_sin 90) 0 2 = 0x1.b91429244c064p-23.
Proof.
  assert (C0 : libm_cos (radians (of_Z 0)) = 1) by (vm_compute; reflexivity).
  assert (S0 : libm_sin (radians (of_Z 0)) = 0) by (vm_compute; reflexivity).
  assert (C90 : libm_cos (radians (of_Z 90)) = 0x1.1a62633145c07p-54)
    by (vm_compute; reflexivity).
  assert (S90 : libm_sin (radians (of_Z 90)) = 1) by (vm_compute; reflexivity).
  destruct (compute_Qbar_shear_coupling libm_cos libm_sin C0 S0 C90 S90)
    as ((H1 & _) & (H2 & _) & _).
  split; [exact H1|exact H2].
Defined.

(** C9 as stated fails at 90 degrees: neither shear coupling of
    [compute_Qbar 90] is zero. *)
Lemma compute_Qbar_shear_coupling_counterexample :
  (mat_get (compute_Qbar libm_cos libm_sin 90) 0 2 =? 0) = false /\
  (mat_get (compute_Qbar libm_cos libm_sin 90) 1 2 =? 0) = false.
Proof. vm_compute. split; reflexivity. Qed.

End Binary64Facts.

(** ** Matrix algebra *)

Lemma mat_eq (A B : Mat3) :
  e00 A = e00 B -> e01 A = e01 B -> e02 A = e02 B ->
  e10 A = e10 B -> e11 A = e11 B -> e12 A = e12 B ->
  e20 A = e20 B -> e21 A = e21 B -> e22 A = e22 B -> A = B.
Proof. destruct A, B; cbn; intros; subst; reflexivity. Qed.

Lemma mat_add_zeros_l (A : Mat3) : mat_add mat_zeros A = A.
Proof. apply mat_eq; cbn; ring. Qed.

Lemma mat_add_zeros_r (A : Mat3) : mat_add A mat_zeros = A.
Proof. apply mat_eq; cbn; ring. Qed.

Lemma mat_add_assoc (A B C : Mat3) :
  mat_add (mat_add A B) C = mat_add A (mat_add B C).
Proof. apply mat_eq; cbn; ring. Qed.

Lemma fold_left_mat_add (f : nat -> Mat3) (l : list nat) (D0 : Mat3) :
  fold_left (fun D i => mat_add D (f i)) l D0 = mat_add D0 (mat_sum (map f l)).
Proof.
  revert D0; induction l as [|i l IH]; intros D0; cbn.
  - now rewrite mat_add_zeros_r.
  - now rewrite IH, mat_add_assoc.
Qed.

(** ** Laminate integrator *)

Lemma linspace_unfold (a b : R) (N : nat) :
  (0 < N)%nat ->
  linspace a b (N + 1) =
  map (fun i => INR i * ((b - a) / INR N) + a) (seq 0 N) ++ [b].
Proof.
  intros HN. unfold linspace.
  replace (N + 1 - 1)%nat with N by lia.
  destruct (Nat.ltb_spec 1 (N + 1)) as [_|H]; [|lia].
  rewrite seq_app, map_app. cbn [seq map].
  now rewrite removelast_last.
Qed.

Lemma linspace_boundaries (N : nat) :
  (0 < N)%nat ->
  linspace (- (INR N * t) / 2) (INR N * t / 2) (N + 1) = ply_boundaries N.
Proof.
  intros HN. rewrite linspace_unfold by exact HN.
  unfold ply_boundaries. rewrite seq_app, map_app. cbn [map seq Nat.add].
  assert (HR : INR N <> 0) by (apply not_0_INR; lia).
  f_equal.
  - apply map_ext. intros i. field. exact HR.
  - f_equal. change (0 + N)%nat with N. field.
Qed.

Lemma nth_ply_boundaries (N i : nat) :
  (i <= N)%nat -> nth i (ply_boundaries N) 0 = - (INR N * t) / 2 + INR i * t.
Proof.
  intros Hi. unfold ply_boundaries.
  rewrite (nth_indep _ 0 ((fun i => - (INR N * t) / 2 + INR i * t) 0%nat))
    by (rewrite length_map, length_seq; lia).
  rewrite (map_nth (fun i => - (INR N * t) / 2 + INR i * t)).
  rewrite seq_nth by lia. reflexivity.
Qed.

Lemma compute_D_matrix_boundaries (full_seq : list Z) :
  let N := length full_seq in
  let z := ply_boundaries N in
  compute_D_matrix full_seq =
  mat_sum (map (fun i => mat_div (mat_scale (compute_Qbar (nth i full_seq 0%Z))
                                            (nth (i + 1) z 0 ^ 3 - nth i z 0 ^ 3)) 3)
               (seq 0 N)).
Proof.
  intros N z. subst z. unfold compute_D_matrix. fold N.
  destruct (Nat.eq_dec N 0) as [H0|H0].
  - rewrite H0. reflexivity.
  - replace (- (INR N * t / 2)) with (- (INR N * t) / 2) by (unfold Rdiv; ring).
    rewrite linspace_boundaries by lia.
    rewrite (fold_left_mat_add
               (fun i => mat_div (mat_scale (compute_Qbar (nth i full_seq 0%Z))
                  (nth (i + 1) (ply_boundaries N) 0 ^ 3
                   - nth i (ply_boundaries N) 0 ^ 3)) 3)).
    apply mat_add_zeros_l.
Qed.

(** C1: [compute_D_matrix] returns the sum over the plies [i] of
    [Qbar(angle_i) * (z[i+1]^3 - z[i]^3) / 3], where [z] is the list of the
    N+1 boundary coordinates evenly spaced (by [t]) from -N*t/2 to +N*t/2.
    It holds for every sequence; for the empty one the sum is the zero
    matrix. *)
Theorem compute_D_matrix_sum (full_seq : list Z) :
  let N := length full_seq in
  let z := ply_boundaries N in
  (length z = N + 1)%nat /\
  nth 0 z 0 = - (INR N * t) / 2 /\
  nth N z 0 = INR N * t / 2 /\
  (forall i, (i < N)%nat -> nth (i + 1) z 0 - nth i z 0 = t) /\
  compute_D_matrix full_seq =
  mat_sum (map (fun i => mat_div (mat_scale (compute_Qbar (nth i full_seq 0%Z))
                                            (nth (i + 1) z 0 ^ 3 - nth i z 0 ^ 3)) 3)
               (seq 0 N)).
Proof.
  intros N z. subst z. repeat split.
  - unfold ply_boundaries. now rewrite length_map, length_seq.
  - rewrite nth_ply_boundaries by lia. cbn [INR]. ring.
  - rewrite nth_ply_boundaries by lia. field.
  - intros i Hi. rewrite !nth_ply_boundaries by lia.
    rewrite plus_INR. cbn [INR]. ring.
  - apply compute_D_matrix_boundaries.
Qed.

Lemma compute_D_matrix_sum_witness :
  (0 < 4)%nat /\
  nth (0 + 1) (ply_boundaries 4) 0 - nth 0 (ply_boundaries 4) 0 = t.
Proof.
  split; [lia|].
  apply (proj1 (proj2 (proj2 (proj2 (compute_D_matrix_sum [0; 90; 90; 0]%Z))))).
  cbn. lia.
Defined.

(** ** Deflection metric *)

Lemma Q11_pos : 0 < Q11.
Proof. apply Rdiv_lt_0_compat; [apply E1_pos | apply denom_pos]. Qed.

Lemma D11_single_0 : mat_get (compute_D_matrix [0%Z]) 0 0 = Q11 * (t ^ 3 / 4) / 3.
Proof.
  rewrite compute_D_matrix_boundaries. cbn [length seq map mat_sum fold_right].
  rewrite !nth_ply_boundaries by (cbn; lia).
  cbn [nth]. unfold compute_Qbar, mat_get.
  cbn [mat_add mat_div mat_scale mat_zeros e00].
  rewrite radians_0, cos_0, sin_0. cbn [INR Nat.add]. field.
Qed.

(** C7: the deflection metric is [1 / D11] when [D11 = D[0,0] > 0] and the
    sentinel [1e12] when [D11 <= 0]; in the second case nothing is raised:
    the sentinel enters the objective like any other value. *)
Theorem laminate_deflection_metric_cases (full_seq : list Z) :
  let D11 := mat_get (compute_D_matrix full_seq) 0 0 in
  (0 < D11 -> laminate_deflection_metric full_seq = 1 / D11) /\
  (D11 <= 0 -> laminate_deflection_metric full_seq = 1e12) /\
  (D11 <= 0 -> forall p, penalty full_seq = Ok p ->
     laminate_objective full_seq = Ok (1e12 + laminate_weight full_seq + p)).
Proof.
  intros D11. unfold laminate_objective, laminate_deflection_metric. fold D11.
  destruct (Rle_dec D11 0) as [H|H]; repeat split; intros; try lra.
  now rewrite H1.
Qed.

Lemma laminate_deflection_metric_cases_witness :
  laminate_deflection_metric [] = 1e12 /\
  laminate_deflection_metric [0%Z] = 1 / mat_get (compute_D_matrix [0%Z]) 0 0.
Proof.
  split.
  - apply (proj1 (proj2 (laminate_deflection_metric_cases []))). cbn. lra.
  - apply (proj1 (laminate_deflection_metric_cases [0%Z])).
    rewrite D11_single_0. pose proof Q11_pos. unfold t. nra.
Defined.

(** ** Penalty *)

Lemma required_plies_div10 (N : nat) : required_plies N = Z.of_nat (N / 10).
Proof.
  unfold required_plies, minPercent. symmetry. apply Int_part_spec.
  pose proof (Nat.div_mod_eq N 10) as HN.
  pose proof (Nat.mod_upper_bound N 10 ltac:(lia)) as Hm.
  assert (HR : INR N = 10 * INR (N / 10) + INR (N mod 10)).
  { rewrite HN at 1. rewrite plus_INR, mult_INR.
    replace (INR 10) with 10 by (cbn; lra). reflexivity. }
  assert (H0 : 0 <= INR (N mod 10)) by apply pos_INR.
  assert (H10 : INR (N mod 10) < 10).
  { replace 10 with (INR 10) by (cbn; lra). now apply lt_INR. }
  rewrite <- INR_IZR_INZ. lra.
Qed.

Lemma py_int_required (N : nat) : py_int (INR N * minPercent) = required_plies N.
Proof.
  unfold py_int, required_plies.
  destruct (Rle_dec 0 (INR N * minPercent)) as [_|H]; [reflexivity|].
  exfalso. apply H. pose proof (pos_INR N). unfold minPercent. lra.
Qed.

Lemma shortfall_branch (pen : R) (required count : Z) :
  (if (count <? required)%Z then pen + 1e6 * IZR (required - count) else pen)
  = pen + 1e6 * IZR (shortfall required count).
Proof.
  unfold shortfall. destruct (Z.ltb_spec count required).
  - rewrite Z.max_r by lia. reflexivity.
  - rewrite Z.max_l by lia. lra.
Qed.

Lemma shortfall_nonneg (required count : Z) : (0 <= shortfall required count)%Z.
Proof. unfold shortfall. lia. Qed.

Lemma shortfall_zero (required count : Z) :
  shortfall required count = 0%Z <-> (required <= count)%Z.
Proof. unfold shortfall. lia. Qed.

(** Whatever the symmetry check answers, the penalty is a million times the
    number of violations counted. *)
Lemma penalty_of_allclose (full_seq : list Z) (symmetric : bool) :
  allclose (map IZR (firstn (length full_seq / 2) full_seq))
           (map IZR (rev (skipn (length full_seq / 2) full_seq))) = Ok symmetric ->
  penalty full_seq =
  Ok (1e6 * IZR ((if symmetric then 0 else 1)
                 + imbalance full_seq + coverage_shortfall full_seq)).
Proof.
  intros H. unfold penalty. rewrite H. cbn [rbind].
  rewrite py_int_required, !shortfall_branch.
  unfold imbalance, coverage_shortfall. f_equal.
  rewrite !plus_IZR. destruct symmetric; cbn [negb]; lra.
Qed.

Lemma all_close_Forall2 (a b : list Z) :
  all_close a b = true <->
  Forall2 (fun x y => isclose (IZR x) (IZR y) = true) a b.
Proof.
  revert b; induction a as [|x a IH]; intros [|y b]; cbn; split; intros H;
    try discriminate; try constructor; try (now inversion H).
  - now apply andb_true_iff in H.
  - apply IH. now apply andb_true_iff in H.
  - inversion H; subst. apply andb_true_iff. split; [assumption|now apply IH].
Qed.

Lemma mirroredb_spec (full_seq : list Z) :
  mirroredb full_seq = true <-> mirrored full_seq.
Proof. apply all_close_Forall2. Qed.

Lemma allclose_same_length (a b : list Z) :
  length a = length b ->
  allclose (map IZR a) (map IZR b) = Ok (all_close a b).
Proof.
  intros H. unfold allclose, broadcast. rewrite !length_map, H, Nat.eqb_refl.
  cbn [rbind]. f_equal.
  revert b H; induction a as [|x a IH]; intros [|y b] H; try discriminate.
  - reflexivity.
  - cbn. f_equal. apply IH. now injection H.
Qed.

Lemma halves_same_length (full_seq : list Z) :
  Nat.even (length full_seq) = true ->
  length (firstn (length full_seq / 2) full_seq)
  = length (rev (skipn (length full_seq / 2) full_seq)).
Proof.
  intros H. apply Nat.even_spec in H. destruct H as [k Hk].
  rewrite length_rev, length_firstn, length_skipn, Hk.
  replace (2 * k / 2)%nat with k by (symmetry; rewrite Nat.mul_comm; apply Nat.div_mul; lia).
  lia.
Qed.

Lemma penalty_even (full_seq : list Z) :
  Nat.even (length full_seq) = true ->
  penalty full_seq = Ok (1e6 * IZR (violation full_seq)).
Proof.
  intros H. unfold violation, asymmetry, mirroredb.
  apply penalty_of_allclose, allclose_same_length, halves_same_length, H.
Qed.

Lemma violation_nonneg (full_seq : list Z) : (0 <= violation full_seq)%Z.
Proof.
  unfold violation, asymmetry, imbalance, coverage_shortfall, shortfall.
  destruct (mirroredb full_seq); lia.
Qed.

Lemma violation_zero (full_seq : list Z) :
  violation full_seq = 0%Z <->
  mirrored full_seq /\ balanced full_seq /\ covered full_seq.
Proof.
  rewrite <- mirroredb_spec.
  unfold violation, asymmetry, imbalance, coverage_shortfall, balanced, covered,
    shortfall.
  destruct (mirroredb full_seq); split; intros H.
  - repeat split; lia.
  - destruct H as (_ & H1 & H2 & H3 & H4). lia.
  - lia.
  - destruct H as (H & _). discriminate.
Qed.

(** For integer angles of magnitude below 10^5, as the allowed ones are, two
    angles are close only when they are equal. *)
Lemma isclose_IZR (a b : Z) :
  (Z.abs b <= 99998)%Z -> isclose (IZR a) (IZR b) = true <-> a = b.
Proof.
  intros Hb. unfold isclose, atol, rtol.
  assert (Hb' : 0 <= Rabs (IZR b) <= 99998).
  { rewrite Rabs_Zabs. split; [apply IZR_le; lia | now apply IZR_le]. }
  destruct (Rle_dec (Rabs (IZR a - IZR b)) (1e-8 + 1e-5 * Rabs (IZR b))) as [H|H].
  - split; [intros _|reflexivity].
    rewrite <- minus_IZR, Rabs_Zabs in H.
    destruct (Z.eq_dec a b) as [|Hne]; [assumption|exfalso].
    assert (H1 : 1 <= IZR (Z.abs (a - b))) by (apply IZR_le; lia).
    lra.
  - split; [discriminate|intros ->]. exfalso. apply H.
    rewrite Rminus_diag, Rabs_R0. lra.
Qed.

Lemma isclose_refl (a : R) : isclose a a = true.
Proof.
  unfold isclose, atol, rtol. rewrite Rminus_diag, Rabs_R0.
  destruct (Rle_dec 0 (1e-8 + 1e-5 * Rabs a)) as [|H]; [reflexivity|].
  exfalso. apply H. pose proof (Rabs_pos a). lra.
Qed.

Lemma all_close_refl (a : list Z) : all_close a a = true.
Proof. induction a; cbn; [reflexivity|]. now rewrite isclose_refl. Qed.

Lemma all_close_eq (a b : list Z) :
  Forall (fun y => (Z.abs y <= 99998)%Z) b ->
  all_close a b = true <-> a = b.
Proof.
  revert a; induction b as [|y b IH]; intros [|x a] Hb; cbn;
    try (split; [discriminate|discriminate]); try (split; reflexivity).
  inversion Hb; subst. rewrite andb_true_iff, isclose_IZR, IH by assumption.
  split; [intros [-> ->]; reflexivity | intros H; injection H; auto].
Qed.

Lemma mirrored_eq (full_seq : list Z) :
  Forall (fun y => (Z.abs y <= 99998)%Z) full_seq ->
  mirrored full_seq <->
  firstn (length full_seq / 2) full_seq = rev (skipn (length full_seq / 2) full_seq).
Proof.
  intros H. rewrite <- mirroredb_spec. apply all_close_eq.
  apply Forall_forall. intros y Hy. rewrite Forall_forall in H. apply H.
  apply in_rev in Hy.
  rewrite <- (firstn_skipn (length full_seq / 2) full_seq).
  apply in_or_app. now right.
Qed.

(** C3, amended: for a full sequence of even length, [penalty] returns a
    million times the total violation (one if the first half is not close to
    the reversed second half, plus the +45/-45 imbalance, plus the three
    coverage shortfalls).  It is zero exactly when the sequence is mirrored,
    balanced and covered; otherwise it is at least a million, and it grows
    with the total violation. *)
Theorem penalty_zero_iff (full_seq : list Z) :
  Nat.even (length full_seq) = true ->
  exists p,
    penalty full_seq = Ok p /\
    p = 1e6 * IZR (violation full_seq) /\
    (p = 0 <-> mirrored full_seq /\ balanced full_seq /\ covered full_seq) /\
    (~ (mirrored full_seq /\ balanced full_seq /\ covered full_seq) -> 1e6 <= p) /\
    (forall other p',
        Nat.even (length other) = true -> penalty other = Ok p' ->
        ((violation full_seq <= violation other)%Z -> p <= p') /\
        ((violation full_seq < violation other)%Z -> p < p')).
Proof.
  intros Heven. exists (1e6 * IZR (violation full_seq)).
  pose proof (violation_nonneg full_seq) as Hnn.
  pose proof (violation_zero full_seq) as Hz.
  split; [now apply penalty_even|]. split; [reflexivity|]. split; [|split].
  - rewrite <- Hz. split; intros H.
    + apply eq_IZR. lra.
    + rewrite H. lra.
  - intros Hv. assert (H1 : (1 <= violation full_seq)%Z).
    { destruct (Z.eq_dec (violation full_seq) 0) as [E|E]; [|lia].
      exfalso. apply Hv, Hz, E. }
    apply IZR_le in H1. lra.
  - intros other p' Ho Hp. rewrite (penalty_even other Ho) in Hp.
    injection Hp as <-. split; intros H.
    + apply IZR_le in H. lra.
    + apply IZR_lt in H. lra.
Qed.

Lemma penalty_zero_iff_witness :
  exists p, penalty [0; 90; 90; 0]%Z = Ok p /\
            p = 1e6 * IZR (violation [0; 90; 90; 0]%Z).
Proof.
  destruct (penalty_zero_iff [0; 90; 90; 0]%Z eq_refl) as (p & H1 & H2 & _).
  exists p. split; assumption.
Defined.

(** C3 as stated fails on a sequence that is balanced and covered but not
    mirrored: its penalty is a million. *)
Lemma penalty_zero_iff_counterexample :
  exists p, penalty [0; 90; 45; -45]%Z = Ok p /\
            ~ (p = 0 <-> balanced [0; 90; 45; -45]%Z /\ covered [0; 90; 45; -45]%Z).
Proof.
  exists (1e6 * IZR (violation [0; 90; 45; -45]%Z)).
  split; [apply penalty_even; reflexivity|].
  assert (Hb : balanced [0; 90; 45; -45]%Z) by reflexivity.
  assert (Hc : covered [0; 90; 45; -45]%Z).
  { unfold covered. rewrite required_plies_div10. cbn. lia. }
  assert (Hm : ~ mirrored [0; 90; 45; -45]%Z).
  { rewrite mirrored_eq.
    - cbn. discriminate.
    - repeat constructor; cbn; lia. }
  intros [_ H]. specialize (H (conj Hb Hc)).
  assert (Hv : violation [0; 90; 45; -45]%Z = 0%Z) by (apply eq_IZR; lra).
  apply violation_zero in Hv. now apply Hm.
Qed.

(** On an odd number of plies, five or more, the two halves compared have
    different lengths, neither of them one, and the comparison raises. *)
Example penalty_five_plies_raises :
  penalty [0; 0; 0; 0; 0]%Z = Err ValueError.
Proof. reflexivity. Qed.

(** ** Objective *)

Lemma mirror_halves (half_seq : list Z) :
  let full_seq := half_seq ++ rev half_seq in
  (length full_seq / 2)%nat = length half_seq /\
  firstn (length half_seq) full_seq = half_seq /\
  skipn (length half_seq) full_seq = rev half_seq.
Proof.
  cbn zeta. rewrite length_app, length_rev. repeat split.
  - replace (length half_seq + length half_seq)%nat with (length half_seq * 2)%nat by lia.
    apply Nat.div_mul. lia.
  - rewrite firstn_app, firstn_all, Nat.sub_diag. cbn. apply app_nil_r.
  - rewrite skipn_app, skipn_all, Nat.sub_diag. reflexivity.
Qed.

Lemma mirror_mirroredb (half_seq : list Z) :
  mirroredb (half_seq ++ rev half_seq) = true.
Proof.
  unfold mirroredb. destruct (mirror_halves half_seq) as (-> & -> & ->).
  rewrite rev_involutive. apply all_close_refl.
Qed.

Lemma mirror_even (half_seq : list Z) :
  Nat.even (length (half_seq ++ rev half_seq)) = true.
Proof.
  rewrite length_app, length_rev. apply Nat.even_spec.
  exists (length half_seq). lia.
Qed.

Lemma penalty_mirror (half_seq : list Z) :
  let full_seq := half_seq ++ rev half_seq in
  penalty full_seq = Ok (1e6 * IZR (imbalance full_seq + coverage_shortfall full_seq)).
Proof.
  cbn zeta. rewrite penalty_even by apply mirror_even.
  unfold violation, asymmetry. now rewrite mirror_mirroredb.
Qed.

Lemma objective_ok (half_seq : list Z) :
  let full_seq := half_seq ++ rev half_seq in
  objective half_seq =
  Ok (laminate_deflection_metric full_seq + laminate_weight full_seq
      + 1e6 * IZR (imbalance full_seq + coverage_shortfall full_seq)).
Proof.
  cbn zeta. unfold objective, laminate_objective.
  now rewrite (penalty_mirror half_seq).
Qed.

(** C4: [objective] evaluates the half-sequence followed by its reverse; the
    first half of that full sequence is the reverse of its second half, so
    the symmetry comparison of [penalty] succeeds and the symmetry term adds
    nothing: the penalty is the balance and coverage part alone. *)
Theorem objective_mirror_symmetric (half_seq : list Z) :
  let full_seq := half_seq ++ rev half_seq in
  let half := length half_seq in
  objective half_seq = laminate_objective full_seq /\
  firstn half full_seq = rev (skipn half full_seq) /\
  allclose (map IZR (firstn (length full_seq / 2) full_seq))
           (map IZR (rev (skipn (length full_seq / 2) full_seq))) = Ok true /\
  asymmetry full_seq = 0%Z /\
  penalty full_seq
  = Ok (1e6 * IZR (imbalance full_seq + coverage_shortfall full_seq)).
Proof.
  intros full_seq half. subst full_seq half.
  destruct (mirror_halves half_seq) as (Hh & Hf & Hs).
  repeat split.
  - rewrite Hf, Hs. now rewrite rev_involutive.
  - rewrite allclose_same_length by apply halves_same_length, mirror_even.
    f_equal. apply mirror_mirroredb.
  - unfold asymmetry. now rewrite mirror_mirroredb.
  - apply penalty_mirror.
Qed.

(** ** The generator monad *)

Lemma bind_ok {A B : Type} (c : M A) (k : A -> M B) (g g1 : RandomState) (a : A) :
  c g = Ok (a, g1) -> bind c k g = k a g1.
Proof. intros H. unfold bind. now rewrite H. Qed.

Lemma lift_ok {A : Type} (c : result A) (a : A) (g : RandomState) :
  c = Ok a -> lift c g = Ok (a, g).
Proof. intros ->. reflexivity. Qed.

Lemma randint_ok (a b : Z) (g : RandomState) :
  (a <= b)%Z ->
  exists k, randint a b g = Ok (k, snd (next_draw g)) /\ (a <= k <= b)%Z.
Proof.
  intros H. unfold randint. destruct (Z.ltb_spec b a); [lia|].
  cbn. eexists; split; [reflexivity|].
  pose proof (Z.mod_pos_bound (Z.of_nat (draws g 0%nat)) (b - a + 1) ltac:(lia)).
  lia.
Qed.

Lemma choice_ok {A : Type} (l : list A) (g : RandomState) :
  l <> [] ->
  exists x, choice l g = Ok (x, snd (next_draw g)) /\ In x l.
Proof.
  destruct l as [|d l]; [congruence|]. intros _. unfold choice.
  cbn [next_draw snd]. eexists; split; [reflexivity|].
  apply nth_In, Nat.mod_upper_bound. cbn. lia.
Qed.

Lemma replicateM_ok {A : Type} (P : A -> Prop) (c : M A) (n : nat) :
  (forall g, exists x g', c g = Ok (x, g') /\ P x) ->
  forall g, exists xs g',
    replicateM n c g = Ok (xs, g') /\ length xs = n /\ Forall P xs.
Proof.
  intros Hc. induction n as [|n IH]; intros g; cbn [replicateM].
  - exists [], g. repeat split. constructor.
  - destruct (Hc g) as (x & g1 & Hx & HP).
    destruct (IH g1) as (xs & g2 & Hxs & Hlen & HF).
    exists (x :: xs), g2. rewrite (bind_ok _ _ _ _ _ Hx), (bind_ok _ _ _ _ _ Hxs).
    repeat split; cbn; [lia | now constructor].
Qed.

(** ** Moves *)

Lemma allowed_moves_spec (half : list Z) :
  In change (allowed_moves half) /\
  (In insert (allowed_moves half) <-> (length half < max_half)%nat) /\
  (In delete (allowed_moves half) <-> (min_half < length half)%nat).
Proof.
  unfold allowed_moves.
  destruct (Nat.ltb_spec (length half) max_half) as [Hi|Hi];
    destruct (Nat.ltb_spec min_half (length half)) as [Hd|Hd];
    cbn [app In]; (split; [now left|]); split; split; intros H;
    try assumption; try lia;
    try (decompose [or] H; (discriminate || contradiction));
    auto.
Qed.

Lemma get_item_ok (l : list Z) (idx : nat) :
  (idx < length l)%nat -> exists a, get_item l idx = Ok a.
Proof.
  intros H. unfold get_item. destruct (nth_error l idx) eqn:E.
  - eexists; reflexivity.
  - apply nth_error_None in E. lia.
Qed.

Lemma set_item_ok (l : list Z) (idx : nat) (a : Z) :
  (idx < length l)%nat ->
  exists l', set_item l idx a = Ok l' /\ length l' = length l
             /\ get_item l' idx = Ok a.
Proof.
  revert idx; induction l as [|x l IH]; intros [|i] H; cbn in H; try lia.
  - exists (a :: l). repeat split.
  - destruct (IH i ltac:(lia)) as (l' & H1 & H2 & H3).
    exists (x :: l'). cbn [set_item]. rewrite H1. cbn. repeat split; [lia|exact H3].
Qed.

Lemma pop_item_ok (l : list Z) (idx : nat) :
  (idx < length l)%nat ->
  exists l', pop_item l idx = Ok l' /\ S (length l') = length l.
Proof.
  intros H. unfold pop_item. destruct (Nat.ltb_spec idx (length l)); [|lia].
  eexists; split; [reflexivity|].
  rewrite length_app, length_firstn, length_skipn. lia.
Qed.

Lemma length_insert_item (l : list Z) (idx : nat) (a : Z) :
  length (insert_item l idx a) = S (length l).
Proof.
  unfold insert_item. rewrite length_app. cbn [length].
  rewrite length_firstn, length_skipn. lia.
Qed.

Lemma other_angles_nonempty (old : Z) :
  filter (fun a => negb (a =? old)%Z) allowed_angles <> [].
Proof.
  unfold allowed_angles. cbn [filter].
  destruct (Z.eqb_spec 0 old) as [<-|]; cbn; discriminate.
Qed.

Lemma allowed_angles_nonempty : allowed_angles <> [].
Proof. discriminate. Qed.

Lemma half_bounds_pos (half : list Z) :
  (min_half <= length half)%nat -> (1 <= length half)%nat.
Proof. unfold min_half, min_full_plies. cbn. lia. Qed.

(** A legal move never raises; [change] keeps the length, [insert] adds one
    ply, [delete] removes one, and the candidate always differs from the
    half-sequence it was made from. *)
Lemma apply_move_ok (mv : move) (half : list Z) (g : RandomState) :
  (1 <= length half)%nat ->
  exists candidate_half g',
    apply_move mv half g = Ok (candidate_half, g') /\
    candidate_half <> half /\
    length candidate_half =
    match mv with
    | change => length half
    | insert => S (length half)
    | delete => pred (length half)
    end.
Proof.
  intros Hlen. destruct mv; cbn [apply_move].
  - destruct (randint_ok 0 (Z.of_nat (length half) - 1) g ltac:(lia))
      as (idx & Hidx & Hrange).
    assert (Hi : (Z.to_nat idx < length half)%nat) by lia.
    destruct (get_item_ok half _ Hi) as (old & Hold).
    destruct (choice_ok _ (snd (next_draw g)) (other_angles_nonempty old))
      as (a & Ha & Hin).
    destruct (set_item_ok half _ a Hi) as (l' & Hset & Hl & Hget).
    exists l', (snd (next_draw (snd (next_draw g)))).
    rewrite (bind_ok _ _ _ _ _ Hidx), (bind_ok _ _ _ _ _ (lift_ok _ _ _ Hold)),
      (bind_ok _ _ _ _ _ Ha).
    split; [now apply lift_ok|]. split; [|exact Hl].
    intros ->. rewrite Hget in Hold. injection Hold as ->.
    apply filter_In in Hin. destruct Hin as [_ Hne].
    now rewrite Z.eqb_refl in Hne.
  - destruct (randint_ok 0 (Z.of_nat (length half)) g ltac:(lia))
      as (idx & Hidx & Hrange).
    destruct (choice_ok _ (snd (next_draw g)) allowed_angles_nonempty)
      as (a & Ha & Hin).
    exists (insert_item half (Z.to_nat idx) a), (snd (next_draw (snd (next_draw g)))).
    rewrite (bind_ok _ _ _ _ _ Hidx), (bind_ok _ _ _ _ _ Ha).
    split; [reflexivity|]. split; [|apply length_insert_item].
    intros H. apply (f_equal (@length Z)) in H.
    rewrite length_insert_item in H. lia.
  - destruct (randint_ok 0 (Z.of_nat (length half) - 1) g ltac:(lia))
      as (idx & Hidx & Hrange).
    assert (Hi : (Z.to_nat idx < length half)%nat) by lia.
    destruct (pop_item_ok half _ Hi) as (l' & Hpop & Hl).
    exists l', (snd (next_draw g)).
    rewrite (bind_ok _ _ _ _ _ Hidx).
    split; [now apply lift_ok|]. split; [|lia].
    intros ->. lia.
Qed.

(** ** One iteration *)

Lemma metropolis_ok (delta temp : R) (g : RandomState) :
  exists accepted g',
    metropolis delta temp g = Ok (accepted, g') /\
    (accepted = true <-> delta < 0 \/ unifs g 0%nat < exp (- delta / temp)).
Proof.
  unfold metropolis. destruct (Rlt_dec delta 0) as [H|H].
  - exists true, g. split; [reflexivity|]. split; auto.
  - unfold bind, random, ret. cbn [next_unif].
    destruct (Rlt_dec (unifs g 0%nat) (exp (- delta / temp))) as [Hr|Hr];
      eexists; eexists; (split; [reflexivity|]); split; intros H'.
    + now right.
    + reflexivity.
    + discriminate.
    + destruct H'; contradiction.
Qed.

(** The proposal of an iteration: the move drawn, then applied to a copy of
    the current half-sequence. *)
Lemma proposal_ok (half : list Z) (g : RandomState) :
  (min_half <= length half <= max_half)%nat ->
  exists candidate_half g',
    bind (choice (allowed_moves half)) (fun mv => apply_move mv half) g
    = Ok (candidate_half, g') /\
    candidate_half <> half /\
    (min_half <= length candidate_half <= max_half)%nat.
Proof.
  intros Hb.
  assert (Hne : allowed_moves half <> []) by (unfold allowed_moves; discriminate).
  destruct (choice_ok _ g Hne) as (mv & Hmv & Hin).
  destruct (apply_move_ok mv half (snd (next_draw g))
              (half_bounds_pos _ (proj1 Hb))) as (cand & g' & Hc & Hd & Hl).
  exists cand, g'. rewrite (bind_ok _ _ _ _ _ Hmv).
  split; [exact Hc|]. split; [exact Hd|].
  destruct (allowed_moves_spec half) as (_ & Hins & Hdel).
  destruct mv; rewrite Hl.
  - exact Hb.
  - apply Hins in Hin. lia.
  - apply Hdel in Hin. lia.
Qed.

Lemma sa_iteration_ok (cooling_rate : R) (s : SAState) (g : RandomState) :
  (min_half <= length (current_half s) <= max_half)%nat ->
  exists candidate_half candidate_obj g1 accepted g2,
    bind (choice (allowed_moves (current_half s)))
         (fun mv => apply_move mv (current_half s)) g
    = Ok (candidate_half, g1) /\
    candidate_half <> current_half s /\
    (min_half <= length candidate_half <= max_half)%nat /\
    objective candidate_half = Ok candidate_obj /\
    (accepted = true <->
     candidate_obj - current_obj s < 0 \/
     unifs g1 0%nat < exp (- (candidate_obj - current_obj s) / T s)) /\
    sa_iteration cooling_rate s g
    = Ok (cool cooling_rate
               (if accepted then accept_candidate s candidate_half candidate_obj
                else s), g2).
Proof.
  intros Hb.
  destruct (proposal_ok _ g Hb) as (cand & g1 & Hp & Hd & Hl).
  pose proof (objective_ok cand) as Ho. cbn zeta in Ho.
  destruct (metropolis_ok
              (laminate_deflection_metric (cand ++ rev cand)
               + laminate_weight (cand ++ rev cand)
               + 1e6 * IZR (imbalance (cand ++ rev cand)
                            + coverage_shortfall (cand ++ rev cand))
               - current_obj s) (T s) g1) as (acc & g2 & Hm & Hacc).
  eexists cand, _, g1, acc, g2.
  split; [exact Hp|]. split; [exact Hd|]. split; [exact Hl|].
  split; [exact Ho|]. split; [exact Hacc|].
  unfold sa_iteration.
  unfold bind at 1. unfold bind at 1.
  unfold bind in Hp. 
  destruct (choice (allowed_moves (current_half s)) g) as [[mv g0]|e];
    [|discriminate].
  rewrite Hp.
  rewrite (bind_ok _ _ _ _ _ (lift_ok _ _ g1 Ho)).
  rewrite (bind_ok _ _ _ _ _ Hm). reflexivity.
Qed.

Lemma accept_candidate_facts (s : SAState) (candidate_half : list Z)
    (candidate_obj : R) :
  let s' := accept_candidate s candidate_half candidate_obj in
  current_half s' = candidate_half /\
  current_obj s' = candidate_obj /\
  T s' = T s /\
  best_obj s' <= best_obj s /\
  best_obj s' <= current_obj s' /\
  (best_obj s' = best_obj s \/ best_obj s' = current_obj s').
Proof.
  unfold accept_candidate.
  destruct (Rlt_dec candidate_obj (best_obj s)) as [H|H]; cbn;
    repeat split; try lra; auto.
Qed.

(** What one iteration does to the search state, whichever way the
    acceptance test goes. *)
Lemma iteration_state_facts (cooling_rate : R) (s : SAState)
    (candidate_half : list Z) (candidate_obj : R) (accepted : bool) :
  let s' := cool cooling_rate
                 (if accepted then accept_candidate s candidate_half candidate_obj
                  else s) in
  T s' = T s * cooling_rate /\
  best_obj s' <= best_obj s /\
  (best_obj s <= current_obj s -> best_obj s' <= current_obj s') /\
  (best_obj s' = best_obj s \/ best_obj s' = current_obj s') /\
  (current_half s' = if accepted then candidate_half else current_half s) /\
  (current_obj s' = if accepted then candidate_obj else current_obj s) /\
  (accepted = false -> best_half s' = best_half s /\ best_obj s' = best_obj s).
Proof.
  destruct (accept_candidate_facts s candidate_half candidate_obj)
    as (H1 & H2 & H3 & H4 & H5 & H6).
  destruct accepted; cbn [cool T best_obj current_obj current_half best_half].
  - rewrite H3. repeat split; intros; auto; try discriminate; lra.
  - repeat split; intros; auto; lra.
Qed.

(** ** The loop *)

Lemma sa_loop_S (n : nat) (cooling_rate : R) (s : SAState) :
  sa_loop (S n) cooling_rate s
  = bind (sa_iteration cooling_rate s) (fun s' => sa_loop n cooling_rate s').
Proof. reflexivity. Qed.

Lemma sa_loop_snoc (k : nat) (cooling_rate : R) (s : SAState) (g : RandomState) :
  sa_loop (S k) cooling_rate s g
  = bind (sa_loop k cooling_rate s) (sa_iteration cooling_rate) g.
Proof.
  revert s g; induction k as [|k IH]; intros s g.
  - cbn [sa_loop]. unfold bind, ret.
    destruct (sa_iteration cooling_rate s g) as [[s' g']|e]; reflexivity.
  - rewrite (sa_loop_S (S k)), (sa_loop_S k). unfold bind.
    destruct (sa_iteration cooling_rate s g) as [[s' g']|e]; [|reflexivity].
    rewrite IH. reflexivity.
Qed.

Lemma sa_after_snoc (k : nat) (initial_temp cooling_rate : R) (g : RandomState) :
  sa_after (S k) initial_temp cooling_rate g
  = bind (sa_after k initial_temp cooling_rate) (sa_iteration cooling_rate) g.
Proof.
  unfold sa_after, bind.
  destruct (sa_init initial_temp g) as [[s0 g0]|e]; [|reflexivity].
  rewrite sa_loop_snoc. reflexivity.
Qed.

Lemma sa_init_ok (initial_temp : R) (g : RandomState) :
  exists s g',
    sa_init initial_temp g = Ok (s, g') /\
    (min_half <= length (current_half s) <= max_half)%nat /\
    objective (current_half s) = Ok (current_obj s) /\
    best_half s = current_half s /\
    best_obj s = current_obj s /\
    T s = initial_temp.
Proof.
  unfold sa_init.
  destruct (randint_ok (Z.of_nat min_half) (Z.of_nat max_half) g)
    as (len & Hlen & Hrange).
  { unfold min_half, max_half, min_full_plies, max_full_plies. cbn. lia. }
  destruct (replicateM_ok (fun a => In a allowed_angles) (choice allowed_angles)
              (Z.to_nat len)
              (fun g0 => match choice_ok allowed_angles g0 allowed_angles_nonempty with
                         | ex_intro _ x H => ex_intro _ x (ex_intro _ _ H)
                         end)
              (snd (next_draw g))) as (half & g1 & Hhalf & Hl & _).
  pose proof (objective_ok half) as Ho. cbn zeta in Ho.
  eexists (mkSA half _ half _ initial_temp), g1.
  rewrite (bind_ok _ _ _ _ _ Hlen), (bind_ok _ _ _ _ _ Hhalf),
    (bind_ok _ _ _ _ _ (lift_ok _ _ g1 Ho)).
  cbn [current_half current_obj best_half best_obj T].
  repeat split; try reflexivity; try exact Ho; lia.
Qed.

(** The search never raises: after any number of iterations there is a
    state, its half length is within the bounds, its best objective is at
    most its current one, and the temperature has decayed geometrically. *)
Lemma sa_after_ok (k : nat) (initial_temp cooling_rate : R) (g : RandomState) :
  exists s g',
    sa_after k initial_temp cooling_rate g = Ok (s, g') /\
    (min_half <= length (current_half s) <= max_half)%nat /\
    best_obj s <= current_obj s /\
    T s = initial_temp * cooling_rate ^ k.
Proof.
  induction k as [|k IH].
  - destruct (sa_init_ok initial_temp g) as (s & g' & Hi & Hb & _ & _ & Hbo & HT).
    exists s, g'. unfold sa_after. rewrite (bind_ok _ _ _ _ _ Hi).
    cbn [sa_loop pow]. unfold ret.
    split; [reflexivity|]. split; [lia|]. split; lra.
  - destruct IH as (s & g0 & Hk & Hb & Hbo & HT).
    destruct (sa_iteration_ok cooling_rate s g0 Hb)
      as (cand & cobj & g1 & acc & g2 & _ & _ & Hl & _ & _ & Hit).
    destruct (iteration_state_facts cooling_rate s cand cobj acc)
      as (F1 & _ & F3 & _ & F5 & _).
    eexists _, g2. rewrite sa_after_snoc, (bind_ok _ _ _ _ _ Hk).
    split; [exact Hit|]. rewrite F1, F5, HT.
    split; [destruct acc; assumption|]. split; [auto|]. cbn [pow]. ring.
Qed.

Lemma simulated_annealing_after (n_iterations : nat)
    (initial_temp cooling_rate : R) (g g' : RandomState) (s : SAState) :
  sa_after n_iterations initial_temp cooling_rate g = Ok (s, g') ->
  simulated_annealing n_iterations initial_temp cooling_rate g
  = Ok ((best_half s ++ rev (best_half s), best_obj s), g').
Proof.
  unfold sa_after, simulated_annealing, bind, ret.
  destruct (sa_init initial_temp g) as [[s0 g0]|e]; [|discriminate].
  intros ->. reflexivity.
Qed.

(** Two consecutive states of a run, and the iteration that links them. *)
Lemma sa_after_step (k : nat) (initial_temp cooling_rate : R) (g : RandomState) :
  exists s g0 s' g2,
    sa_after k initial_temp cooling_rate g = Ok (s, g0) /\
    sa_iteration cooling_rate s g0 = Ok (s', g2) /\
    sa_after (S k) initial_temp cooling_rate g = Ok (s', g2) /\
    (min_half <= length (current_half s) <= max_half)%nat /\
    best_obj s <= current_obj s /\
    best_obj s' <= best_obj s /\
    best_obj s' <= current_obj s' /\
    (best_obj s' = best_obj s \/ best_obj s' = current_obj s').
Proof.
  destruct (sa_after_ok k initial_temp cooling_rate g) as (s & g0 & Hk & Hb & Hbo & _).
  destruct (sa_iteration_ok cooling_rate s g0 Hb)
    as (cand & cobj & g1 & acc & g2 & _ & _ & _ & _ & _ & Hit).
  destruct (iteration_state_facts cooling_rate s cand cobj acc)
    as (_ & F2 & F3 & F4 & _).
  eexists s, g0, _, g2. rewrite sa_after_snoc, (bind_ok _ _ _ _ _ Hk).
  repeat split; try exact Hit; try exact Hk; try lia; auto.
Qed.

(** C2: in an iteration from a state whose half length is within the bounds,
    with [delta = candidate_obj - current_obj] and [r] the next float of the
    generator, the candidate (which always differs from the current
    half-sequence) and its objective become current exactly when
    [delta < 0] or [r < exp (- delta / T)]; otherwise the current and the
    best half-sequence and objective are unchanged. *)
Theorem metropolis_acceptance (cooling_rate : R) (s : SAState) (g : RandomState) :
  (min_half <= length (current_half s) <= max_half)%nat ->
  exists candidate_half candidate_obj g1 s' g2,
    bind (choice (allowed_moves (current_half s)))
         (fun mv => apply_move mv (current_half s)) g
    = Ok (candidate_half, g1) /\
    objective candidate_half = Ok candidate_obj /\
    sa_iteration cooling_rate s g = Ok (s', g2) /\
    candidate_half <> current_half s /\
    let delta := candidate_obj - current_obj s in
    let r := unifs g1 0%nat in
    (current_half s' = candidate_half <-> delta < 0 \/ r < exp (- delta / T s)) /\
    (delta < 0 \/ r < exp (- delta / T s) ->
     current_half s' = candidate_half /\ current_obj s' = candidate_obj) /\
    (~ (delta < 0 \/ r < exp (- delta / T s)) ->
     current_half s' = current_half s /\ current_obj s' = current_obj s /\
     best_half s' = best_half s /\ best_obj s' = best_obj s).
Proof.
  intros Hb.
  destruct (sa_iteration_ok cooling_rate s g Hb)
    as (cand & cobj & g1 & acc & g2 & Hp & Hd & _ & Ho & Hacc & Hit).
  destruct (iteration_state_facts cooling_rate s cand cobj acc)
    as (_ & _ & _ & _ & F5 & F6 & F7).
  eexists cand, cobj, g1, _, g2.
  split; [exact Hp|]. split; [exact Ho|]. split; [exact Hit|].
  split; [exact Hd|]. cbn zeta. rewrite F5, F6.
  destruct acc.
  - assert (Hc : cobj - current_obj s < 0 \/
                 unifs g1 0%nat < exp (- (cobj - current_obj s) / T s))
      by now apply Hacc.
    repeat split; auto; intros; contradiction.
  - assert (Hc : ~ (cobj - current_obj s < 0 \/
                    unifs g1 0%nat < exp (- (cobj - current_obj s) / T s))).
    { intros H. apply Hacc in H. discriminate. }
    destruct (F7 eq_refl) as [F8 F9].
    repeat split; auto; intros; try contradiction.
    exfalso. apply Hd. congruence.
Qed.

Lemma metropolis_acceptance_witness :
  exists s' g2, sa_iteration 0.999 sample_state zero_generator = Ok (s', g2).
Proof.
  assert (Hb : (min_half <= length (current_half sample_state) <= max_half)%nat)
    by (cbn; lia).
  destruct (metropolis_acceptance 0.999 sample_state zero_generator Hb)
    as (c & o & g1 & s' & g2 & _ & _ & H & _).
  exists s', g2. exact H.
Defined.

(** C5: the best objective does not increase from the end of one iteration
    to the end of the next. *)
Theorem best_obj_nonincreasing (k : nat) (initial_temp cooling_rate : R)
    (g : RandomState) :
  exists s g1 s' g2,
    sa_after k initial_temp cooling_rate g = Ok (s, g1) /\
    sa_after (S k) initial_temp cooling_rate g = Ok (s', g2) /\
    best_obj s' <= best_obj s.
Proof.
  destruct (sa_after_step k initial_temp cooling_rate g)
    as (s & g0 & s' & g2 & H1 & _ & H2 & _ & _ & H3 & _).
  now exists s, g0, s', g2.
Qed.

(** C6: [change] is always among the allowed moves, [insert] only below
    [max_half] and [delete] only above [min_half]; [change] keeps the
    length; and after any number of iterations of any run the current half
    length is within [min_half, max_half]. *)
Theorem half_length_within_bounds :
  (forall half,
      In change (allowed_moves half) /\
      (In insert (allowed_moves half) <-> (length half < max_half)%nat) /\
      (In delete (allowed_moves half) <-> (min_half < length half)%nat)) /\
  (forall half g,
      (1 <= length half)%nat ->
      exists candidate_half g',
        apply_move change half g = Ok (candidate_half, g') /\
        length candidate_half = length half) /\
  (forall k initial_temp cooling_rate g,
      exists s g',
        sa_after k initial_temp cooling_rate g = Ok (s, g') /\
        (min_half <= length (current_half s) <= max_half)%nat).
Proof.
  split; [exact allowed_moves_spec|]. split.
  - intros half g H.
    destruct (apply_move_ok change half g H) as (c & g' & H1 & _ & H2).
    now exists c, g'.
  - intros k initial_temp cooling_rate g.
    destruct (sa_after_ok k initial_temp cooling_rate g) as (s & g' & H1 & H2 & _).
    now exists s, g'.
Qed.

Lemma half_length_within_bounds_witness :
  exists candidate_half g',
    apply_move change [0; 0]%Z zero_generator = Ok (candidate_half, g') /\
    length candidate_half = 2%nat.
Proof.
  apply (proj1 (proj2 half_length_within_bounds) [0; 0]%Z zero_generator).
  cbn. lia.
Defined.

(** The best objective after [n] iterations is below every current objective
    the run has had, and it is one of them. *)
Lemma best_obj_minimum (n : nat) (initial_temp cooling_rate : R) (g : RandomState) :
  exists s g',
    sa_after n initial_temp cooling_rate g = Ok (s, g') /\
    (forall j, (j <= n)%nat ->
       exists sj gj, sa_after j initial_temp cooling_rate g = Ok (sj, gj) /\
                     best_obj sj <= current_obj sj /\
                     best_obj s <= current_obj sj) /\
    (exists j sj gj, (j <= n)%nat /\
                     sa_after j initial_temp cooling_rate g = Ok (sj, gj) /\
                     best_obj s = current_obj sj).
Proof.
  induction n as [|n IH].
  - destruct (sa_after_ok 0 initial_temp cooling_rate g) as (s & g' & H0 & _ & Hle & _).
    unfold sa_after in H0.
    destruct (sa_init_ok initial_temp g) as (s0 & g0 & Hi & _ & _ & _ & Heq & _).
    rewrite (bind_ok _ _ _ _ _ Hi) in H0. cbn in H0. injection H0 as <- <-.
    assert (H0 : sa_after 0 initial_temp cooling_rate g = Ok (s0, g0)).
    { unfold sa_after. now rewrite (bind_ok _ _ _ _ _ Hi). }
    exists s0, g0. split; [exact H0|]. split.
    + intros j Hj. assert (j = 0%nat) as -> by lia.
      exists s0, g0. repeat split; [exact H0|lra|lra].
    + exists 0%nat, s0, g0. split; [lia|]. split; [exact H0|exact Heq].
  - destruct IH as (s & g0 & Hn & Hall & (j0 & sj0 & gj0 & Hj0 & Haj0 & Hmin)).
    destruct (sa_after_step n initial_temp cooling_rate g)
      as (s1 & g1 & s' & g2 & Hn' & _ & HS & _ & _ & F1 & F2 & F3).
    rewrite Hn in Hn'. injection Hn' as <- <-.
    exists s', g2. split; [exact HS|]. split.
    + intros j Hj. destruct (Nat.eq_dec j (S n)) as [->|Hne].
      * exists s', g2. repeat split; [exact HS|exact F2|exact F2].
      * destruct (Hall j ltac:(lia)) as (sj & gj & Haj & Hj1 & Hj2).
        exists sj, gj. repeat split; [exact Haj|exact Hj1|lra].
    + destruct F3 as [F3|F3].
      * exists j0, sj0, gj0. split; [lia|]. split; [exact Haj0|lra].
      * exists (S n), s', g2. split; [lia|]. split; [exact HS|exact F3].
Qed.

(** C10: after the initialisation and at the end of every iteration the best
    objective is at most the current objective; the best objective returned
    by [simulated_annealing] is therefore the least of the current
    objectives the run has had (the initial one and those of the accepted
    candidates): it is below each of them and equal to one of them. *)
Theorem best_obj_le_current_obj (n_iterations : nat)
    (initial_temp cooling_rate : R) (g : RandomState) :
  exists s g',
    sa_after n_iterations initial_temp cooling_rate g = Ok (s, g') /\
    simulated_annealing n_iterations initial_temp cooling_rate g
    = Ok ((best_half s ++ rev (best_half s), best_obj s), g') /\
    (forall j, (j <= n_iterations)%nat ->
       exists sj gj, sa_after j initial_temp cooling_rate g = Ok (sj, gj) /\
                     best_obj sj <= current_obj sj /\
                     best_obj s <= current_obj sj) /\
    (exists j sj gj, (j <= n_iterations)%nat /\
                     sa_after j initial_temp cooling_rate g = Ok (sj, gj) /\
                     best_obj s = current_obj sj).
Proof.
  destruct (best_obj_minimum n_iterations initial_temp cooling_rate g)
    as (s & g' & H1 & H2 & H3).
  exists s, g'. split; [exact H1|]. split; [|split; assumption].
  now apply simulated_annealing_after.
Qed.

Lemma best_obj_le_current_obj_witness :
  exists s g',
    sa_after 0 1 0.999 zero_generator = Ok (s, g') /\
    best_obj s <= current_obj s.
Proof.
  destruct (best_obj_le_current_obj 0 1 0.999 zero_generator)
    as (s & g' & H1 & _ & H2 & _).
  exists s, g'. split; [exact H1|].
  destruct (H2 0%nat (Nat.le_refl 0)) as (sj & gj & Hj & Hle & _).
  rewrite H1 in Hj. injection Hj as <- <-. exact Hle.
Defined.

(** ** Configuration *)

(** C8, amended: nothing validates the configuration.  The module constants
    are literals that happen to be valid, and [simulated_annealing] takes any
    temperature and cooling rate as they come: whatever they are, the run
    goes through all its iterations and returns, the temperature having been
    multiplied by the cooling rate once per iteration. *)
Theorem no_configuration_validation :
  ((min_full_plies <= max_full_plies)%nat /\ allowed_angles <> [] /\
   0 < E1 /\ 0 < E2 /\ 0 < G12 /\ 0 < nu12 /\ 0 < denom) /\
  forall n_iterations initial_temp cooling_rate g,
  exists s g',
    sa_after n_iterations initial_temp cooling_rate g = Ok (s, g') /\
    T s = initial_temp * cooling_rate ^ n_iterations /\
    simulated_annealing n_iterations initial_temp cooling_rate g
    = Ok ((best_half s ++ rev (best_half s), best_obj s), g').
Proof.
  split.
  - repeat split; try (unfold E1, E2, G12, nu12; lra).
    + unfold min_full_plies, max_full_plies. lia.
    + discriminate.
    + apply denom_pos.
  - intros n_iterations initial_temp cooling_rate g.
    destruct (sa_after_ok n_iterations initial_temp cooling_rate g)
      as (s & g' & H1 & _ & _ & H2).
    exists s, g'. repeat split; [exact H1|exact H2|].
    now apply simulated_annealing_after.
Qed.

(** C8 as stated fails: a cooling rate of 2, outside (0,1), raises nothing;
    the three iterations asked for are run, the temperature ends at 8, and a
    result is returned. *)
Lemma no_configuration_validation_counterexample :
  ~ (0 < 2 < 1) /\
  exists s g',
    sa_after 3 1 2 zero_generator = Ok (s, g') /\
    T s = 8 /\
    forall e, simulated_annealing 3 1 2 zero_generator <> Err e.
Proof.
  split; [lra|].
  destruct (sa_after_ok 3 1 2 zero_generator) as (s & g' & H1 & _ & _ & H2).
  exists s, g'. repeat split; [exact H1|rewrite H2; lra|].
  intros e. rewrite (simulated_annealing_after _ _ _ _ _ _ H1). discriminate.
Qed.

(** * Further properties of the code *)

(** ** Ply transform: opposite angles, sign *)

Lemma radians_opp (a : Z) : radians (IZR (- a)) = - radians (IZR a).
Proof. unfold radians. rewrite opp_IZR. ring. Qed.

Lemma cos2_sin2_one (x : R) : cos x ^ 2 + sin x ^ 2 = 1.
Proof. pose proof (sin2_cos2 x) as H. unfold Rsqr in H. lra. Qed.

(** X1: a ply at [-a] degrees has the stiffnesses Qbar11, Qbar12, Qbar22 and
    Qbar66 of the ply at [a] degrees, and the opposite shear couplings
    Qbar16 and Qbar26. *)
Theorem compute_Qbar_opposite_angle (a : Z) :
  let P := compute_Qbar a in
  let N := compute_Qbar (- a) in
  e00 N = e00 P /\ e01 N = e01 P /\ e11 N = e11 P /\ e22 N = e22 P /\
  e02 N = - e02 P /\ e12 N = - e12 P.
Proof.
  unfold compute_Qbar. cbn [e00 e01 e11 e22 e02 e12].
  rewrite radians_opp, cos_neg, sin_neg. repeat split; ring.
Qed.

Lemma Q22_pos : 0 < Q22.
Proof. apply Rdiv_lt_0_compat; [unfold E2; lra | apply denom_pos]. Qed.

Lemma Q12_pos : 0 < Q12.
Proof.
  unfold Q12. apply Rdiv_lt_0_compat; [unfold nu12, E2; lra | apply denom_pos].
Qed.

Lemma Q66_pos : 0 < Q66.
Proof. unfold Q66, G12. lra. Qed.

(** The stiffness Qbar11 of a ply is positive at every angle. *)
Lemma Qbar11_pos (a : Z) : 0 < e00 (compute_Qbar a).
Proof.
  unfold compute_Qbar. cbn [e00].
  pose proof (cos2_sin2_one (radians (IZR a))) as H.
  set (m := cos (radians (IZR a))) in *. set (n := sin (radians (IZR a))) in *.
  pose proof Q11_pos. pose proof Q22_pos. pose proof Q12_pos. pose proof Q66_pos.
  assert (Hx : 0 <= m ^ 2) by apply pow2_ge_0.
  assert (Hy : 0 <= n ^ 2) by apply pow2_ge_0.
  replace (m ^ 4) with (m ^ 2 * m ^ 2) by ring.
  replace (n ^ 4) with (n ^ 2 * n ^ 2) by ring.
  set (x := m ^ 2) in *. set (y := n ^ 2) in *.
  assert (Hc : 0 <= 2 * (Q12 + 2 * Q66) * (x * y)).
  { apply Rmult_le_pos; [lra|]. now apply Rmult_le_pos. }
  destruct (Rle_dec (1 / 2) x) as [Hh|Hh].
  - assert (0 < Q11 * (x * x)) by (apply Rmult_lt_0_compat; nra).
    assert (0 <= Q22 * (y * y)) by (apply Rmult_le_pos; nra).
    lra.
  - assert (0 <= Q11 * (x * x)) by (apply Rmult_le_pos; nra).
    assert (0 < Q22 * (y * y)) by (apply Rmult_lt_0_compat; nra).
    lra.
Qed.

(** ** Laminate integrator: sign and symmetry *)

Lemma cube_step_pos (a d : R) : 0 < d -> 0 < (a + d) ^ 3 - a ^ 3.
Proof.
  intros Hd.
  replace ((a + d) ^ 3 - a ^ 3)
    with (d * (3 * ((a + d / 2) * (a + d / 2)) + d * d / 4)) by field.
  apply Rmult_lt_0_compat; [exact Hd|].
  pose proof (Rle_0_sqr (a + d / 2)) as Hs. unfold Rsqr in Hs.
  pose proof (Rmult_lt_0_compat d d Hd Hd). lra.
Qed.

Lemma boundary_cubes_pos (N i : nat) :
  (i < N)%nat ->
  0 < nth (i + 1) (ply_boundaries N) 0 ^ 3 - nth i (ply_boundaries N) 0 ^ 3.
Proof.
  intros Hi. rewrite !nth_ply_boundaries by lia.
  replace (- (INR N * t) / 2 + INR (i + 1) * t)
    with (- (INR N * t) / 2 + INR i * t + t)
    by (rewrite plus_INR; cbn [INR]; ring).
  apply cube_step_pos. unfold t. lra.
Qed.

Lemma mat_sum_e00_nonneg (l : list Mat3) :
  Forall (fun M => 0 < e00 M) l -> 0 <= e00 (mat_sum l).
Proof.
  induction 1 as [|M l HM _ IH]; cbn; [lra|]. fold (mat_sum l). lra.
Qed.

Lemma mat_sum_e00_pos (l : list Mat3) :
  l <> [] -> Forall (fun M => 0 < e00 M) l -> 0 < e00 (mat_sum l).
Proof.
  intros Hne HF. destruct HF as [|M l HM HF]; [congruence|].
  cbn. fold (mat_sum l). pose proof (mat_sum_e00_nonneg l HF). lra.
Qed.

Lemma D11_nonempty_pos (full_seq : list Z) :
  full_seq <> [] -> 0 < mat_get (compute_D_matrix full_seq) 0 0.
Proof.
  intros Hne. rewrite compute_D_matrix_boundaries. cbn [mat_get].
  apply mat_sum_e00_pos.
  - destruct full_seq; [congruence|]. cbn. discriminate.
  - apply Forall_forall. intros M HM. apply in_map_iff in HM.
    destruct HM as (i & <- & Hi). apply in_seq in Hi. cbn [mat_div mat_scale e00].
    pose proof (Qbar11_pos (nth i full_seq 0%Z)).
    pose proof (boundary_cubes_pos (length full_seq) i ltac:(lia)).
    apply Rdiv_lt_0_compat; [|lra]. now apply Rmult_lt_0_compat.
Qed.

(** X5: for every non-empty laminate the bending stiffness D11 is positive,
    so the sentinel branch is not taken: the deflection metric is [1 / D11],
    a positive number. *)
Theorem nonempty_deflection_metric (full_seq : list Z) :
  full_seq <> [] ->
  let D11 := mat_get (compute_D_matrix full_seq) 0 0 in
  0 < D11 /\
  laminate_deflection_metric full_seq = 1 / D11 /\
  0 < laminate_deflection_metric full_seq.
Proof.
  intros Hne D11. pose proof (D11_nonempty_pos full_seq Hne) as Hpos. fold D11 in Hpos.
  unfold laminate_deflection_metric. fold D11.
  destruct (Rle_dec D11 0) as [H|H]; [lra|].
  repeat split; [exact Hpos|]. apply Rdiv_lt_0_compat; lra.
Qed.

Lemma nonempty_deflection_metric_witness :
  laminate_deflection_metric [0; 90]%Z
  = 1 / mat_get (compute_D_matrix [0; 90]%Z) 0 0.
Proof.
  apply (nonempty_deflection_metric [0; 90]%Z). discriminate.
Defined.

Lemma mat_sum_symmetric (l : list Mat3) :
  Forall mat_symmetric l -> mat_symmetric (mat_sum l).
Proof.
  induction 1 as [|M l (H1 & H2 & H3) _ (I1 & I2 & I3)]; cbn.
  - repeat split.
  - fold (mat_sum l). unfold mat_symmetric. cbn. now rewrite H1, H2, H3, I1, I2, I3.
Qed.

(** X6: the bending stiffness matrix of every laminate is symmetric. *)
Theorem compute_D_matrix_symmetric (full_seq : list Z) :
  mat_symmetric (compute_D_matrix full_seq).
Proof.
  rewrite compute_D_matrix_boundaries. apply mat_sum_symmetric.
  apply Forall_forall. intros M HM. apply in_map_iff in HM.
  destruct HM as (i & <- & _). repeat split.
Qed.

(** ** Penalty: values, odd lengths, mirrored laminates *)

(** X9: whenever [penalty] returns, it returns a natural multiple of a
    million; in particular it is never negative. *)
Theorem penalty_multiple_of_million (full_seq : list Z) (p : R) :
  penalty full_seq = Ok p ->
  exists v : Z, (0 <= v)%Z /\ p = 1e6 * IZR v /\ 0 <= p.
Proof.
  intros H.
  destruct (allclose (map IZR (firstn (length full_seq / 2) full_seq))
                     (map IZR (rev (skipn (length full_seq / 2) full_seq))))
    as [symmetric|e] eqn:E.
  - rewrite (penalty_of_allclose _ _ E) in H. injection H as <-.
    eexists. split; [|split; [reflexivity|]].
    + unfold imbalance, coverage_shortfall, shortfall. destruct symmetric; lia.
    + assert (Hv : (0 <= (if symmetric then 0 else 1) + imbalance full_seq
                         + coverage_shortfall full_seq)%Z).
      { unfold imbalance, coverage_shortfall, shortfall. destruct symmetric; lia. }
      apply IZR_le in Hv. lra.
  - unfold penalty in H. rewrite E in H. discriminate.
Qed.

Lemma penalty_multiple_of_million_witness :
  exists v : Z, (0 <= v)%Z /\ 1e6 * IZR (violation [0; 90; 90; 0]%Z) = 1e6 * IZR v
                /\ 0 <= 1e6 * IZR (violation [0; 90; 90; 0]%Z).
Proof.
  apply (penalty_multiple_of_million [0; 90; 90; 0]%Z).
  apply penalty_even. reflexivity.
Defined.

(** X10: on an odd number of plies, five or more, the symmetry comparison
    is between arrays of different lengths, neither of length one;
    [penalty] raises [ValueError], and so does [laminate_objective]. *)
Theorem penalty_odd_raises (full_seq : list Z) :
  Nat.odd (length full_seq) = true ->
  (5 <= length full_seq)%nat ->
  penalty full_seq = Err ValueError /\
  laminate_objective full_seq = Err ValueError.
Proof.
  intros Hodd Hlen. apply Nat.odd_spec in Hodd. destruct Hodd as [m Hm].
  assert (Hhalf : (length full_seq / 2 = m)%nat).
  { symmetry. apply (Nat.div_unique _ 2 m 1); lia. }
  assert (Hp : penalty full_seq = Err ValueError).
  { unfold penalty, allclose, broadcast.
    rewrite !length_map, length_rev, length_firstn, length_skipn, Hhalf.
    destruct (Nat.eqb_spec (Nat.min m (length full_seq)) (length full_seq - m));
      [lia|].
    destruct (Nat.eqb_spec (Nat.min m (length full_seq)) 1); [lia|].
    destruct (Nat.eqb_spec (length full_seq - m) 1); [lia|].
    reflexivity. }
  split; [exact Hp|]. unfold laminate_objective. now rewrite Hp.
Qed.

Lemma penalty_odd_raises_witness :
  penalty [0; 45; 90; -45; 0; 90; 0]%Z = Err ValueError.
Proof.
  apply (penalty_odd_raises [0; 45; 90; -45; 0; 90; 0]%Z); [reflexivity|cbn; lia].
Defined.

Lemma isclose_IZR_eqb (a b : Z) :
  (Z.abs b <= 99998)%Z -> isclose (IZR a) (IZR b) = (a =? b)%Z.
Proof.
  intros Hb. pose proof (isclose_IZR a b Hb) as H.
  destruct (Z.eqb_spec a b) as [E|E].
  - now apply H.
  - destruct (isclose (IZR a) (IZR b)); [|reflexivity].
    exfalso. apply E. now apply H.
Qed.

(** X11: on three plies the first ply is compared, by broadcasting, with
    both others: the symmetry term is charged unless all three angles are
    equal, so also for a palindrome such as [0, 90, 0]. *)
Theorem penalty_three_plies (a b c : Z) :
  (Z.abs b <= 99998)%Z -> (Z.abs c <= 99998)%Z ->
  penalty [a; b; c]
  = Ok (1e6 * IZR ((if (a =? c)%Z && (a =? b)%Z then 0 else 1)
                   + imbalance [a; b; c] + coverage_shortfall [a; b; c])).
Proof.
  intros Hb Hc. apply penalty_of_allclose.
  cbn [length Nat.div Nat.divmod fst firstn skipn rev app map].
  unfold allclose, broadcast. cbn [length Nat.eqb rbind map hd forallb fst snd].
  rewrite !isclose_IZR_eqb by assumption. now rewrite andb_true_r.
Qed.

Lemma penalty_three_plies_witness :
  penalty [0; 90; 0]%Z
  = Ok (1e6 * IZR (1 + imbalance [0; 90; 0]%Z + coverage_shortfall [0; 90; 0]%Z)).
Proof.
  apply (penalty_three_plies 0 90 0); cbn; lia.
Defined.

Lemma count_angle_mirror (half_seq : list Z) (a : Z) :
  count_angle (half_seq ++ rev half_seq) a = (2 * count_angle half_seq a)%Z.
Proof.
  unfold count_angle. rewrite count_occ_app, count_occ_rev. lia.
Qed.

Lemma required_plies_mirror (half_seq : list Z) :
  required_plies (length (half_seq ++ rev half_seq))
  = Z.of_nat (length half_seq / 5).
Proof.
  rewrite required_plies_div10, length_app, length_rev. f_equal.
  replace (length half_seq + length half_seq)%nat with (2 * length half_seq)%nat by lia.
  change 10%nat with (2 * 5)%nat. apply Nat.Div0.div_mul_cancel_l. lia.
Qed.

(** X12: the penalty of the laminate mirrored from a half-sequence, in terms
    of the half: twice the +45/-45 imbalance of the half, plus the shortfalls
    of twice the half's counts below [len(half) // 5].  Below five plies in
    the half nothing is required and only the imbalance is charged. *)
Theorem penalty_of_half (half_seq : list Z) :
  let c := count_angle half_seq in
  let required := Z.of_nat (length half_seq / 5) in
  penalty (half_seq ++ rev half_seq)
  = Ok (1e6 * IZR (2 * Z.abs (c 45 - c (-45))
                   + shortfall required (2 * c 0)
                   + shortfall required (2 * c 90)
                   + shortfall required (2 * (c 45 + c (-45))))%Z) /\
  ((length half_seq < 5)%nat ->
   penalty (half_seq ++ rev half_seq) = Ok (2e6 * IZR (Z.abs (c 45 - c (-45)))%Z)).
Proof.
  intros c required.
  assert (H : penalty (half_seq ++ rev half_seq)
              = Ok (1e6 * IZR (2 * Z.abs (c 45 - c (-45))
                   + shortfall required (2 * c 0)
                   + shortfall required (2 * c 90)
                   + shortfall required (2 * (c 45 + c (-45))))%Z)).
  { rewrite (penalty_mirror half_seq). unfold imbalance, coverage_shortfall.
    rewrite required_plies_mirror, !count_angle_mirror. fold required. fold c.
    do 3 f_equal. unfold shortfall. lia. }
  split; [exact H|]. intros Hlen. rewrite H.
  assert (Hr : required = 0%Z).
  { unfold required. rewrite Nat.div_small by lia. reflexivity. }
  assert (Hc : forall a, (0 <= c a)%Z) by (intros a; unfold c, count_angle; lia).
  pose proof (Hc 0%Z). pose proof (Hc 90%Z). pose proof (Hc 45%Z).
  pose proof (Hc (-45)%Z).
  rewrite Hr. unfold shortfall. rewrite !Z.max_l by lia.
  rewrite !Z.add_0_r, mult_IZR. f_equal. lra.
Qed.

Lemma penalty_of_half_witness :
  penalty ([45; 0] ++ rev [45; 0])%Z
  = Ok (2e6 * IZR (Z.abs (count_angle [45; 0] 45 - count_angle [45; 0] (-45)))%Z).
Proof.
  apply (proj2 (penalty_of_half [45; 0]%Z)). cbn. lia.
Defined.

(** ** Objective *)

Lemma laminate_deflection_metric_pos (full_seq : list Z) :
  0 < laminate_deflection_metric full_seq.
Proof.
  unfold laminate_deflection_metric.
  destruct (Rle_dec (mat_get (compute_D_matrix full_seq) 0 0) 0) as [H|H]; [lra|].
  apply Rdiv_lt_0_compat; lra.
Qed.

Lemma laminate_weight_mirror (half_seq : list Z) :
  laminate_weight (half_seq ++ rev half_seq) = 0.01 * INR (length half_seq).
Proof.
  unfold laminate_weight, ply_weight. rewrite length_app, length_rev, plus_INR. lra.
Qed.

Lemma objective_above_weight (half_seq : list Z) :
  exists v, objective half_seq = Ok v /\ 0.01 * INR (length half_seq) < v.
Proof.
  eexists. split; [apply objective_ok|].
  rewrite laminate_weight_mirror.
  pose proof (laminate_deflection_metric_pos (half_seq ++ rev half_seq)).
  assert (Hv : (0 <= imbalance (half_seq ++ rev half_seq)
                     + coverage_shortfall (half_seq ++ rev half_seq))%Z).
  { unfold imbalance, coverage_shortfall, shortfall. lia. }
  apply IZR_le in Hv. lra.
Qed.

(** X13: [objective] never raises, whatever the half-sequence, and its value
    is positive: it exceeds the weight term, 0.01 per ply of the half. *)
Theorem objective_positive (half_seq : list Z) :
  exists v, objective half_seq = Ok v /\
            0.01 * INR (length half_seq) < v /\ 0 < v.
Proof.
  destruct (objective_above_weight half_seq) as (v & H1 & H2).
  exists v. repeat split; [exact H1|exact H2|].
  pose proof (pos_INR (length half_seq)). lra.
Qed.

(** ** Moves *)

Lemma bind_inv {A B : Type} (c : M A) (k : A -> M B) (g g' : RandomState) (b : B) :
  bind c k g = Ok (b, g') ->
  exists a g1, c g = Ok (a, g1) /\ k a g1 = Ok (b, g').
Proof.
  unfold bind. destruct (c g) as [[a g1]|e]; [|discriminate].
  intros H. now exists a, g1.
Qed.

Lemma lift_inv {A : Type} (c : result A) (a : A) (g g' : RandomState) :
  lift c g = Ok (a, g') -> c = Ok a /\ g' = g.
Proof.
  unfold lift. destruct c; [|discriminate]. intros H. injection H as -> ->. auto.
Qed.

Lemma choice_inv {A : Type} (l : list A) (x : A) (g g' : RandomState) :
  choice l g = Ok (x, g') -> In x l.
Proof.
  intros H. destruct l as [|d l]; [discriminate|].
  destruct (choice_ok (d :: l) g ltac:(discriminate)) as (y & Hy & Hin).
  rewrite Hy in H. injection H as <- _. exact Hin.
Qed.

Lemma set_item_nth_error (l l' : list Z) (idx : nat) (a : Z) :
  set_item l idx a = Ok l' ->
  nth_error l' idx = Some a /\
  forall j, j <> idx -> nth_error l' j = nth_error l j.
Proof.
  revert l' idx; induction l as [|x l IH]; intros l' [|i] H; cbn in H;
    try discriminate.
  - injection H as <-. split; [reflexivity|]. intros [|j] Hj; [lia|reflexivity].
  - destruct (set_item l i a) as [r|e] eqn:E; [|discriminate].
    cbn in H. injection H as <-. destruct (IH r i E) as [H1 H2].
    split; [exact H1|]. intros [|j] Hj; [reflexivity|]. cbn. apply H2. lia.
Qed.

Lemma set_item_Forall (P : Z -> Prop) (l l' : list Z) (idx : nat) (a : Z) :
  set_item l idx a = Ok l' -> Forall P l -> P a -> Forall P l'.
Proof.
  revert l' idx; induction l as [|x l IH]; intros l' [|i] H HF Ha; cbn in H;
    try discriminate; inversion HF; subst.
  - injection H as <-. now constructor.
  - destruct (set_item l i a) as [r|e] eqn:E; [|discriminate].
    cbn in H. injection H as <-. constructor; [assumption|]. now apply (IH r i).
Qed.

Lemma Forall_firstn (P : Z -> Prop) (n : nat) (l : list Z) :
  Forall P l -> Forall P (firstn n l).
Proof.
  intros H. apply Forall_forall. intros x Hx. rewrite Forall_forall in H.
  apply H. rewrite <- (firstn_skipn n l). apply in_or_app. now left.
Qed.

Lemma Forall_skipn (P : Z -> Prop) (n : nat) (l : list Z) :
  Forall P l -> Forall P (skipn n l).
Proof.
  intros H. apply Forall_forall. intros x Hx. rewrite Forall_forall in H.
  apply H. rewrite <- (firstn_skipn n l). apply in_or_app. now right.
Qed.

Lemma filter_other_allowed (old a : Z) :
  In a (filter (fun x => negb (x =? old)%Z) allowed_angles) ->
  In a allowed_angles /\ a <> old.
Proof.
  intros H. apply filter_In in H. destruct H as [H1 H2]. split; [exact H1|].
  intros ->. now rewrite Z.eqb_refl in H2.
Qed.

(** A move keeps the half-sequence over the allowed angles. *)
Lemma apply_move_allowed (mv : move) (half candidate_half : list Z)
    (g g' : RandomState) :
  apply_move mv half g = Ok (candidate_half, g') ->
  Forall (fun a => In a allowed_angles) half ->
  Forall (fun a => In a allowed_angles) candidate_half.
Proof.
  intros H HF. destruct mv; cbn [apply_move] in H.
  - apply bind_inv in H. destruct H as (idx & g1 & _ & H).
    apply bind_inv in H. destruct H as (old & g2 & _ & H).
    apply bind_inv in H. destruct H as (a & g3 & Ha & H).
    apply lift_inv in H. destruct H as [H _].
    apply choice_inv, filter_other_allowed in Ha.
    apply (set_item_Forall _ _ _ _ _ H HF). apply Ha.
  - apply bind_inv in H. destruct H as (idx & g1 & _ & H).
    apply bind_inv in H. destruct H as (a & g2 & Ha & H).
    injection H as <- _. apply choice_inv in Ha. unfold insert_item.
    apply Forall_app. split; [now apply Forall_firstn|].
    constructor; [exact Ha|now apply Forall_skipn].
  - apply bind_inv in H. destruct H as (idx & g1 & _ & H).
    apply lift_inv in H. destruct H as [H _]. unfold pop_item in H.
    destruct (Z.to_nat idx <? length half)%nat; [|discriminate].
    injection H as <-. apply Forall_app.
    split; [now apply Forall_firstn|].
    now apply (Forall_skipn _ (S (Z.to_nat idx))).
Qed.

(** X14: on a non-empty half-sequence [change] never raises; it replaces
    the angle at one position by an allowed angle different from the one
    that was there, and leaves every other position as it was. *)
Theorem change_move_spec (half : list Z) (g : RandomState) :
  (1 <= length half)%nat ->
  exists candidate_half g' idx a,
    apply_move change half g = Ok (candidate_half, g') /\
    (idx < length half)%nat /\
    In a allowed_angles /\
    nth_error half idx <> Some a /\
    nth_error candidate_half idx = Some a /\
    (forall j, j <> idx -> nth_error candidate_half j = nth_error half j).
Proof.
  intros Hlen. cbn [apply_move].
  destruct (randint_ok 0 (Z.of_nat (length half) - 1) g ltac:(lia))
    as (idx & Hidx & Hrange).
  assert (Hi : (Z.to_nat idx < length half)%nat) by lia.
  destruct (get_item_ok half _ Hi) as (old & Hold).
  destruct (choice_ok _ (snd (next_draw g)) (other_angles_nonempty old))
    as (a & Ha & Hin).
  destruct (set_item_ok half _ a Hi) as (l' & Hset & _ & _).
  destruct (set_item_nth_error _ _ _ _ Hset) as [Hn1 Hn2].
  apply filter_other_allowed in Hin. destruct Hin as [Hin Hne].
  exists l', (snd (next_draw (snd (next_draw g)))), (Z.to_nat idx), a.
  rewrite (bind_ok _ _ _ _ _ Hidx), (bind_ok _ _ _ _ _ (lift_ok _ _ _ Hold)),
    (bind_ok _ _ _ _ _ Ha).
  split; [now apply lift_ok|]. split; [exact Hi|]. split; [exact Hin|].
  split; [|split; assumption].
  unfold get_item in Hold. destruct (nth_error half (Z.to_nat idx)); [|discriminate].
  injection Hold as ->. congruence.
Qed.

Lemma change_move_spec_witness :
  exists candidate_half g' idx a,
    apply_move change [0; 90]%Z zero_generator = Ok (candidate_half, g') /\
    (idx < 2)%nat /\ In a allowed_angles /\
    nth_error [0; 90]%Z idx <> Some a /\
    nth_error candidate_half idx = Some a /\
    (forall j, j <> idx -> nth_error candidate_half j = nth_error [0; 90]%Z j).
Proof.
  apply (change_move_spec [0; 90]%Z zero_generator). cbn. lia.
Defined.

(** X15: deleting at the position where a ply was just inserted gives the
    half-sequence back, and the inserted angle is read at that position; an
    insertion index past the end appends. *)
Theorem insert_then_pop (l : list Z) (idx : nat) (a : Z) :
  ((idx <= length l)%nat ->
   pop_item (insert_item l idx a) idx = Ok l /\
   get_item (insert_item l idx a) idx = Ok a) /\
  ((length l <= idx)%nat -> insert_item l idx a = l ++ [a]).
Proof.
  split.
  - intros Hidx.
    assert (Hf : length (firstn idx l) = idx) by (rewrite length_firstn; lia).
    split.
    + unfold pop_item. rewrite length_insert_item.
      destruct (Nat.ltb_spec idx (S (length l))); [|lia].
      unfold insert_item.
      rewrite firstn_app, Hf, Nat.sub_diag, firstn_all2 by lia.
      cbn [firstn]. rewrite app_nil_r.
      rewrite skipn_app, Hf, skipn_all2 by lia.
      replace (S idx - idx)%nat with 1%nat by lia. cbn [skipn app].
      now rewrite firstn_skipn.
    + unfold get_item, insert_item.
      rewrite nth_error_app2 by lia. rewrite Hf, Nat.sub_diag. reflexivity.
  - intros Hidx. unfold insert_item.
    now rewrite firstn_all2, skipn_all2 by lia.
Qed.

Lemma insert_then_pop_witness :
  pop_item (insert_item [0; 90]%Z 1 45%Z) 1 = Ok [0; 90]%Z /\
  insert_item [0; 90]%Z 7 45%Z = [0; 90; 45]%Z.
Proof.
  split.
  - apply (proj1 (insert_then_pop [0; 90]%Z 1 45%Z)). cbn. lia.
  - apply (proj2 (insert_then_pop [0; 90]%Z 7 45%Z)). cbn. lia.
Defined.

(** X16: on the empty half-sequence [change] and [delete] raise
    [ValueError] (the index range 0..-1 is empty), while [insert] returns a
    one-ply sequence over the allowed angles. *)
Theorem moves_on_empty (g : RandomState) :
  apply_move change [] g = Err ValueError /\
  apply_move delete [] g = Err ValueError /\
  exists a g', apply_move insert [] g = Ok ([a], g') /\ In a allowed_angles.
Proof.
  split; [reflexivity|]. split; [reflexivity|].
  cbn [apply_move length]. 
  destruct (randint_ok 0 (Z.of_nat 0) g ltac:(lia)) as (idx & Hidx & Hrange).
  destruct (choice_ok allowed_angles (snd (next_draw g)) allowed_angles_nonempty)
    as (a & Ha & Hin).
  exists a, (snd (next_draw (snd (next_draw g)))).
  rewrite (bind_ok _ _ _ _ _ Hidx), (bind_ok _ _ _ _ _ Ha).
  split; [|exact Hin]. unfold ret, insert_item.
  now rewrite firstn_nil, skipn_nil.
Qed.

(** ** The search: what every state and the result satisfy *)

Lemma sa_init_well_formed (initial_temp : R) (g : RandomState) :
  exists s g', sa_init initial_temp g = Ok (s, g') /\ well_formed s.
Proof.
  unfold sa_init.
  destruct (randint_ok (Z.of_nat min_half) (Z.of_nat max_half) g)
    as (len & Hlen & Hrange).
  { unfold min_half, max_half, min_full_plies, max_full_plies. cbn. lia. }
  destruct (replicateM_ok (fun a => In a allowed_angles) (choice allowed_angles)
              (Z.to_nat len)
              (fun g0 => match choice_ok allowed_angles g0 allowed_angles_nonempty with
                         | ex_intro _ x H => ex_intro _ x (ex_intro _ _ H)
                         end)
              (snd (next_draw g))) as (half & g1 & Hhalf & Hl & HF).
  pose proof (objective_ok half) as Ho. cbn zeta in Ho.
  eexists (mkSA half _ half _ initial_temp), g1.
  rewrite (bind_ok _ _ _ _ _ Hlen), (bind_ok _ _ _ _ _ Hhalf),
    (bind_ok _ _ _ _ _ (lift_ok _ _ g1 Ho)).
  split; [reflexivity|]. unfold well_formed.
  cbn [current_half current_obj best_half best_obj].
  repeat split; try exact Ho; try exact HF; lia.
Qed.

Lemma sa_iteration_well_formed (cooling_rate : R) (s s' : SAState)
    (g g' : RandomState) :
  well_formed s ->
  sa_iteration cooling_rate s g = Ok (s', g') ->
  well_formed s'.
Proof.
  intros (Hb & Hbb & HF & HFb & Ho & Hob) H.
  destruct (sa_iteration_ok cooling_rate s g Hb)
    as (cand & cobj & g1 & acc & g2 & Hp & _ & Hl & Hco & _ & Hit).
  rewrite Hit in H. injection H as <- _.
  assert (HFc : Forall (fun a => In a allowed_angles) cand).
  { apply bind_inv in Hp. destruct Hp as (mv & g0 & _ & Hp).
    exact (apply_move_allowed _ _ _ _ _ Hp HF). }
  unfold well_formed. destruct acc.
  - unfold accept_candidate.
    destruct (Rlt_dec cobj (best_obj s));
      cbn [cool current_half current_obj best_half best_obj];
      repeat split; try assumption; lia.
  - cbn [cool current_half current_obj best_half best_obj].
    repeat split; try assumption; lia.
Qed.

Lemma sa_after_well_formed (k : nat) (initial_temp cooling_rate : R)
    (g : RandomState) :
  exists s g', sa_after k initial_temp cooling_rate g = Ok (s, g') /\ well_formed s.
Proof.
  induction k as [|k IH].
  - destruct (sa_init_well_formed initial_temp g) as (s & g' & Hi & Hw).
    exists s, g'. unfold sa_after. rewrite (bind_ok _ _ _ _ _ Hi).
    split; [reflexivity|exact Hw].
  - destruct IH as (s & g0 & Hk & Hw).
    destruct (sa_iteration_ok cooling_rate s g0 (proj1 Hw))
      as (cand & cobj & g1 & acc & g2 & _ & _ & _ & _ & _ & Hit).
    eexists _, g2. rewrite sa_after_snoc, (bind_ok _ _ _ _ _ Hk).
    split; [exact Hit|]. exact (sa_iteration_well_formed _ _ _ _ _ Hw Hit).
Qed.

(** X17: after any number of iterations of any run, the current and the
    best half-sequences consist of allowed angles, the best one is within
    the length bounds, and the two stored objectives are the objectives of
    the half-sequences they are stored with. *)
Theorem search_state_well_formed (k : nat) (initial_temp cooling_rate : R)
    (g : RandomState) :
  exists s g',
    sa_after k initial_temp cooling_rate g = Ok (s, g') /\
    Forall (fun a => In a allowed_angles) (current_half s) /\
    Forall (fun a => In a allowed_angles) (best_half s) /\
    (min_half <= length (best_half s) <= max_half)%nat /\
    objective (current_half s) = Ok (current_obj s) /\
    objective (best_half s) = Ok (best_obj s).
Proof.
  destruct (sa_after_well_formed k initial_temp cooling_rate g)
    as (s & g' & H & (_ & Hbb & HF & HFb & Ho & Hob)).
  exists s, g'. repeat split; try assumption; lia.
Qed.

Lemma rev_mirror (half_seq : list Z) :
  rev (half_seq ++ rev half_seq) = half_seq ++ rev half_seq.
Proof. now rewrite rev_app_distr, rev_involutive. Qed.

(** X18: the sequence returned by [simulated_annealing] reads the same in
    both directions, has an even number of plies between [min_full_plies]
    and [max_full_plies], and consists of allowed angles. *)
Theorem simulated_annealing_sequence (n_iterations : nat)
    (initial_temp cooling_rate : R) (g : RandomState) :
  exists best_full_seq best_value g',
    simulated_annealing n_iterations initial_temp cooling_rate g
    = Ok ((best_full_seq, best_value), g') /\
    rev best_full_seq = best_full_seq /\
    Nat.even (length best_full_seq) = true /\
    (min_full_plies <= length best_full_seq <= max_full_plies)%nat /\
    Forall (fun a => In a allowed_angles) best_full_seq.
Proof.
  destruct (sa_after_well_formed n_iterations initial_temp cooling_rate g)
    as (s & g' & H & (_ & Hbb & _ & HFb & _ & _)).
  exists (best_half s ++ rev (best_half s)), (best_obj s), g'.
  split; [now apply simulated_annealing_after|].
  split; [apply rev_mirror|]. split; [apply mirror_even|]. split.
  - rewrite length_app, length_rev.
    unfold min_half, max_half, min_full_plies, max_full_plies in *.
    cbn in Hbb. lia.
  - apply Forall_app. split; [exact HFb|]. now apply Forall_rev.
Qed.

(** X19: the value returned by [simulated_annealing] is the objective of
    the sequence returned with it: [laminate_objective] of that sequence,
    with no symmetry charge in it, and positive. *)
Theorem simulated_annealing_value (n_iterations : nat)
    (initial_temp cooling_rate : R) (g : RandomState) :
  exists best_full_seq best_value g',
    simulated_annealing n_iterations initial_temp cooling_rate g
    = Ok ((best_full_seq, best_value), g') /\
    laminate_objective best_full_seq = Ok best_value /\
    best_value
    = laminate_deflection_metric best_full_seq + laminate_weight best_full_seq
      + 1e6 * IZR (imbalance best_full_seq + coverage_shortfall best_full_seq) /\
    0 < best_value.
Proof.
  destruct (sa_after_well_formed n_iterations initial_temp cooling_rate g)
    as (s & g' & H & (_ & _ & _ & _ & _ & Hob)).
  exists (best_half s ++ rev (best_half s)), (best_obj s), g'.
  split; [now apply simulated_annealing_after|].
  split; [exact Hob|].
  pose proof (objective_ok (best_half s)) as Ho. cbn zeta in Ho.
  rewrite Hob in Ho. injection Ho as Ho. split; [exact Ho|].
  destruct (objective_above_weight (best_half s)) as (v & Hv & Hpos).
  rewrite Hob in Hv. injection Hv as <-.
  pose proof (pos_INR (length (best_half s))). lra.
Qed.
